(** * geomqa: version gate, NIfTI-suffix stripping and pipeline orchestration

    A shallow embedding of [geomqa/geomqa.py] and [geomqa/vercheck.py].

    Text is modelled as [string]; a character is a code point below 256.
    Paths are modelled the way [pathlib] stores them, as the list of their
    segments.  The file system is a finite map from paths to nodes, and the
    Python functions that print, raise or start processes are written in a
    small state-and-exception monad over a [world]. *)

From Stdlib Require Import Ascii ZArith Lia Bool.
From Stdlib Require String.
From stdpp Require Import gmap strings list.

Local Open Scope stdpp_scope.

#[local] Arguments String.append !_ _ / : simpl nomatch.

(** ** Text primitives: the [str] methods the program calls *)

Module Text.

(** The newline character and the one-character string holding it. *)
Definition LF : ascii := "010"%char.
Definition nl : string := String LF "".

(** [s.startswith(needle)] *)
Fixpoint startswith (needle s : string) : bool :=
  match needle, s with
  | EmptyString, _ => true
  | String _ _, EmptyString => false
  | String a needle', String b s' =>
      if Ascii.eqb a b then startswith needle' s' else false
  end.

(** [needle in s], for a non-empty [needle]. *)
Fixpoint contains (needle s : string) : bool :=
  match s with
  | EmptyString => false
  | String _ s' => startswith needle s || contains needle s'
  end.

(** [c in s] for a single character. *)
Fixpoint has_char (c : ascii) (s : string) : bool :=
  match s with
  | EmptyString => false
  | String d s' => Ascii.eqb c d || has_char c s'
  end.

(** [c.isspace()] on code points below 256: TAB, LF, VT, FF, CR, the four
    separators FS, GS, RS and US, the space, NEL and the no-break space. *)
Definition isspace (c : ascii) : bool :=
  match nat_of_ascii c with
  | 9 | 10 | 11 | 12 | 13 | 28 | 29 | 30 | 31 | 32 | 133 | 160 => true
  | _ => false
  end.

(** The line boundaries of [str.splitlines] below 256 (CR LF is handled
    in [splitlines]). *)
Definition islinebreak (c : ascii) : bool :=
  match nat_of_ascii c with
  | 10 | 11 | 12 | 13 | 28 | 29 | 30 | 133 => true
  | _ => false
  end.

Fixpoint lstrip (s : string) : string :=
  match s with
  | EmptyString => EmptyString
  | String c s' => if isspace c then lstrip s' else s
  end.

Fixpoint rstrip (s : string) : string :=
  match s with
  | EmptyString => EmptyString
  | String c s' =>
      match rstrip s' with
      | EmptyString => if isspace c then EmptyString else String c EmptyString
      | r => String c r
      end
  end.

(** [s.strip()] *)
Definition strip (s : string) : string := lstrip (rstrip s).

(** Put [c] in front of the first piece of [pieces]. *)
Definition cons_first (c : ascii) (pieces : list string) : list string :=
  match pieces with
  | [] => [String c EmptyString]
  | l :: ls => String c l :: ls
  end.

(** [s.splitlines()] *)
Fixpoint splitlines (s : string) : list string :=
  match s with
  | EmptyString => []
  | String c s' =>
      if islinebreak c then
        match s' with
        | String d s'' =>
            if Ascii.eqb c "013"%char && Ascii.eqb d LF
            then EmptyString :: splitlines s''
            else EmptyString :: splitlines s'
        | EmptyString => [EmptyString]
        end
      else cons_first c (splitlines s')
  end.

(** [s.split(sep)] for a one-character separator: every occurrence of
    [sep] cuts, and empty pieces are kept. *)
Fixpoint split (sep : ascii) (s : string) : list string :=
  match s with
  | EmptyString => [EmptyString]
  | String c s' =>
      if Ascii.eqb c sep then EmptyString :: split sep s'
      else cons_first c (split sep s')
  end.

(** [sep.join(pieces)] *)
Fixpoint join (sep : string) (pieces : list string) : string :=
  match pieces with
  | [] => ""
  | [x] => x
  | x :: rest => x +:+ sep +:+ join sep rest
  end.

(** [s.lower()] on the ASCII letters. *)
Definition lower_char (c : ascii) : ascii :=
  let n := nat_of_ascii c in
  if (65 <=? n) && (n <=? 90) then ascii_of_nat (n + 32) else c.

Fixpoint lower (s : string) : string :=
  match s with
  | EmptyString => EmptyString
  | String c s' => String (lower_char c) (lower s')
  end.

End Text.

(** ** The fragment of Python's [re] used by [remove_niigz] *)

Module Re.

(** One pattern position: an escaped or ordinary literal, or [.], which
    without [re.DOTALL] matches every character but the newline. *)
Inductive atom : Type :=
| Lit (c : ascii)
| Dot.

(** A pattern is a sequence of atoms; each consumes exactly one character,
    so a match at a given position is unique and needs no backtracking. *)
Definition regex : Type := list atom.

Definition atom_matches (a : atom) (c : ascii) : bool :=
  match a with
  | Lit x => Ascii.eqb x c
  | Dot => negb (Ascii.eqb c Text.LF)
  end.

(** Match [pat] at the start of [s]; the result is the text after the match. *)
Fixpoint match_here (pat : regex) (s : string) : option string :=
  match pat with
  | [] => Some s
  | a :: pat' =>
      match s with
      | EmptyString => None
      | String c s' => if atom_matches a c then match_here pat' s' else None
      end
  end.

(** [re.IGNORECASE], alias [re.I]: an [int] flag whose value is 2. *)
Definition I : nat := 2.

(** The substitution loop of [re.sub(pattern, repl, string, count)]: scan
    from the left, replace each match by [repl] and resume after it, until
    [count] replacements were made; [count = 0] means no limit.  [n] is the
    number of replacements made so far.  [fuel] bounds the number of steps;
    the length of [s] is always enough. *)
Fixpoint sub_loop (fuel : nat) (pat : regex) (repl : string)
    (count n : nat) (s : string) : string :=
  match fuel with
  | 0 => s
  | S fuel' =>
      if (count =? 0) || (n <? count) then
        match s with
        | EmptyString => EmptyString
        | String c s' =>
            match match_here pat s with
            | Some rest => repl +:+ sub_loop fuel' pat repl count (S n) rest
            | None => String c (sub_loop fuel' pat repl count n s')
            end
        end
      else s
  end.

(** [re.sub(pattern, repl, string, count)] for a non-empty [pattern].
    The positional order of the arguments is Python's: the fourth one is
    [count], not [flags]. *)
Definition sub (pat : regex) (repl s : string) (count : nat) : string :=
  sub_loop (String.length s) pat repl count 0 s.

(** [re.search(pattern, s) is not None] *)
Fixpoint search (pat : regex) (s : string) : bool :=
  match s with
  | EmptyString => false
  | String _ s' => bool_decide (is_Some (match_here pat s)) || search pat s'
  end.

End Re.

(** ** [geomqa.remove_niigz] *)

(** [r"\.nii.gz"] *)
Definition re_niigz : Re.regex :=
  [Re.Lit "."%char; Re.Lit "n"%char; Re.Lit "i"%char; Re.Lit "i"%char;
   Re.Dot; Re.Lit "g"%char; Re.Lit "z"%char].

(** [r"\.nii"] *)
Definition re_nii : Re.regex :=
  [Re.Lit "."%char; Re.Lit "n"%char; Re.Lit "i"%char; Re.Lit "i"%char].

Definition remove_niigz (s : string) : string :=
  let s := Re.sub re_niigz "" s Re.I in
  let s := Re.sub re_nii "" s Re.I in
  s.

(** ** Paths, as [pathlib.PurePosixPath] keeps them *)

(** The segments of an absolute path, below the root.  [main] resolves
    the input files, the output directory and the package directory
    before it uses them, so every path it handles but [args.niftyreg] is
    of this kind. *)
Definition path : Type := list string.

(** [p / seg] for a right operand that is one segment (it holds no [/]):
    every right operand in the program is a literal file name or is built
    from [Path.name].  [pathlib] drops an empty segment and a [.] segment
    and keeps every other one, [..] included. *)
Definition path_div (p : path) (seg : string) : path :=
  if bool_decide (seg = "" ∨ seg = ".") then p else p ++ [seg].

Infix "//" := path_div (at level 40, left associativity).

(** [p.name]: the last segment, empty for the root. *)
Definition name (p : path) : string := default "" (last p).

(** [p.parent]; the root is its own parent. *)
Definition parent (p : path) : path := removelast p.

(** A path as it was written, which is what [args.niftyreg] stays:
    absolute, or relative to the working directory. *)
Inductive given_path : Type :=
| Absolute (p : path)
| Relative (segs : list string).

(** [g / seg] on a path as written. *)
Definition given_div (g : given_path) (seg : string) : given_path :=
  match g with
  | Absolute p => Absolute (p // seg)
  | Relative segs => Relative (segs // seg)
  end.

Infix "///" := given_div (at level 40, left associativity).

(** Where the system looks for a path as written, the working directory
    being [cwd].  The file system is asked about the path as it is
    spelled, and the program only reads through [args.niftyreg]. *)
Definition locate (cwd : path) (g : given_path) : path :=
  match g with
  | Absolute p => p
  | Relative segs => cwd ++ segs
  end.

(** [os.fspath] of a relative path: its segments joined by [/], and [.]
    when there are none. *)
Definition fspath (segs : list string) : string :=
  match segs with
  | [] => "."
  | _ => Text.join "/" segs
  end.

(** ** The world the program runs in *)

(** One argument of a command line: a [str] or an absolute
    [pathlib.Path]. *)
Inductive arg : Type :=
| S_ (s : string)
| P_ (p : path).

Definition cmd : Type := list arg.

(** A path as written, as an argument: [subprocess] passes [os.fspath]
    of it, so a relative one reaches the system as the string it spells.
    A relative path of one segment is a bare name: as the name of the
    program it is searched in the directories of [PATH], like [mrinfo],
    and not in the working directory. *)
Definition G_ (g : given_path) : arg :=
  match g with
  | Absolute p => P_ p
  | Relative segs => S_ (fspath segs)
  end.

Inductive node : Type :=
| Directory
| Regular
| Symlink (target : path).

#[global] Instance node_eq_dec : EqDecision node.
Proof. solve_decision. Defined.

#[global] Instance arg_eq_dec : EqDecision arg.
Proof. solve_decision. Defined.

(** The exceptions the program raises or lets through. *)
Inductive exn : Type :=
| SystemExit (code : Z)
| FileNotFoundError (msg : string)
| FileExistsError (p : path)
| NotADirectoryError (p : path)
| CalledProcessError (returncode : Z) (c : cmd)
| IndexError
| RenderError.

(** What the program does to the outside, in order. *)
Inductive event : Type :=
| Run (c : cmd)            (* [subprocess.run]: blocking *)
| Spawn (c : cmd)          (* [subprocess.Popen]: never awaited *)
| MakeDir (p : path)
| MakeLink (link target : path)
| Plot (base overlay fig : path).

Record world : Type := World {
  w_stdout : string;
  w_stderr : string;
  w_fs : gmap path node;
  w_trace : list event
}.

(** What starting a process gives, for the outcomes the program tells
    apart: the executable is not found, or the process runs and ends with
    a status.  The other ways a launch can fail (a file that may not be
    executed, output that is no text) raise exceptions of their own and
    are not modelled. *)
Inductive launch : Type :=
| NoSuchExecutable
| Completed (returncode : Z) (out : string) (fs' : gmap path node).

Inductive result (A : Type) : Type :=
| Return (a : A)
| Raise (e : exn).
Arguments Return {A} a.
Arguments Raise {A} e.

(** A computation: it runs in a world and returns or raises. *)
Definition M (A : Type) : Type := world → result A * world.

Definition ret {A} (a : A) : M A := fun w => (Return a, w).
Definition raise {A} (e : exn) : M A := fun w => (Raise e, w).
Definition bind {A B} (m : M A) (k : A → M B) : M B :=
  fun w => match m w with
           | (Return a, w') => k a w'
           | (Raise e, w') => (Raise e, w')
           end.

(** With these instances the programs below are written in the notation
    [x ← m; k] and [m;; k]. *)
#[global] Instance M_ret : MRet M := @ret.
#[global] Instance M_bind : MBind M := fun A B k m => bind m k.

(** [print(s)] *)
Definition print (s : string) : M unit := fun w =>
  (Return (), World (w_stdout w +:+ s +:+ Text.nl) (w_stderr w) (w_fs w) (w_trace w)).

(** [sys.stderr.write(s)] *)
Definition stderr_write (s : string) : M unit := fun w =>
  (Return (), World (w_stdout w) (w_stderr w +:+ s) (w_fs w) (w_trace w)).

(** [sys.exit(code)] *)
Definition sys_exit {A} (code : Z) : M A := raise (SystemExit code).

Definition log (e : event) : M unit := fun w =>
  (Return (), World (w_stdout w) (w_stderr w) (w_fs w) (w_trace w ++ [e])).

Definition get_fs : M (gmap path node) := fun w => (Return (w_fs w), w).

Definition set_fs (fs : gmap path node) : M unit := fun w =>
  (Return (), World (w_stdout w) (w_stderr w) fs (w_trace w)).

(** [l[i]] *)
Definition index {A} (l : list A) (i : nat) : M A :=
  match l !! i with
  | Some x => ret x
  | None => raise IndexError
  end.

(** The exit status of the interpreter when [main] ends this way. *)
Definition exit_status {A} (r : result A) : Z :=
  match r with
  | Return _ => 0
  | Raise (SystemExit code) => code
  | Raise _ => 1
  end.

(** *** The file system *)

Module Fs.

(** The node a path names; the root is always a directory. *)
Definition lstat (fs : gmap path node) (p : path) : option node :=
  match p with
  | [] => Some Directory
  | _ => fs !! p
  end.

(** Follow symbolic links, at most [fuel] of them. *)
Fixpoint stat (fuel : nat) (fs : gmap path node) (p : path) : option node :=
  match lstat fs p with
  | Some (Symlink target) =>
      match fuel with
      | 0 => None
      | S fuel' => stat fuel' fs target
      end
  | other => other
  end.

(** The kernel gives up after 40 links. *)
Definition MAXSYMLINKS : nat := 40.

(** [p.is_dir()] *)
Definition is_dir (fs : gmap path node) (p : path) : bool :=
  bool_decide (stat MAXSYMLINKS fs p = Some Directory).

(** Whether the way down to the missing directory [rev rd] is barred by
    an entry that is there and is no directory: the system then answers
    [ENOTDIR], not [ENOENT]. *)
Fixpoint barred (fs : gmap path node) (rd : list string) : bool :=
  match rd with
  | [] => false
  | _ :: rparent =>
      match stat MAXSYMLINKS fs (rev rd) with
      | Some Directory => false
      | Some _ => true
      | None => barred fs rparent
      end
  end.

(** What a system call raises for the new entry [p] when its parent
    cannot be reached. *)
Definition parent_missing {A : Type} (fs : gmap path node) (p : path) : M A :=
  if barred fs (rev (parent p)) then raise (NotADirectoryError p)
  else raise (FileNotFoundError "").

(** [os.mkdir(p)] *)
Definition os_mkdir (p : path) : M unit :=
  log (MakeDir p);;
  fs ← get_fs;
  match lstat fs p with
  | Some _ => raise (FileExistsError p)
  | None =>
      match stat MAXSYMLINKS fs (parent p) with
      | None => parent_missing fs p
      | Some Directory => set_fs (<[p := Directory]> fs)
      | Some _ => raise (NotADirectoryError p)
      end
  end.

(** The handlers of [Path.mkdir] around [os.mkdir]; [on_missing] is what
    the [except FileNotFoundError] clause does. *)
Definition mkdir_handlers (p : path) (exist_ok : bool)
    (on_missing : M unit) : M unit := fun w =>
  match os_mkdir p w with
  | (Raise (FileNotFoundError msg), w') => on_missing w'
  | (Raise e, w') =>
      if negb exist_ok || negb (is_dir (w_fs w') p)
      then (Raise e, w') else (Return (), w')
  | ok => ok
  end.

(** [Path.mkdir(parents=True, exist_ok=exist_ok)], by recursion on the
    path read from its last segment. *)
Fixpoint mkdir_parents_rev (rp : list string) (exist_ok : bool) : M unit :=
  let p := rev rp in
  mkdir_handlers p exist_ok
    match rp with
    | [] => raise (FileNotFoundError "")
    | _ :: rparent =>
        mkdir_parents_rev rparent true;;
        mkdir_handlers p exist_ok (raise (FileNotFoundError ""))
    end.

(** [p.mkdir(parents=True, exist_ok=True)] *)
Definition mkdir (p : path) : M unit := mkdir_parents_rev (rev p) true.

(** [link.symlink_to(target)] *)
Definition symlink_to (link target : path) : M unit :=
  log (MakeLink link target);;
  fs ← get_fs;
  match lstat fs link with
  | Some _ => raise (FileExistsError link)
  | None =>
      match stat MAXSYMLINKS fs (parent link) with
      | None => parent_missing fs link
      | Some Directory => set_fs (<[link := Symlink target]> fs)
      | Some _ => raise (NotADirectoryError link)
      end
  end.

End Fs.

(** ** The program *)

Section Program.

(** How the machine answers when a command is started on a file system:
    the executable is missing, or the process runs to its end. *)
Variable exec : cmd → gmap path node → launch.

(** What [matplotlib] and [nibabel] make of [contour]'s arguments: the
    file system with the figure written, or nothing when they raise. *)
Variable render : path → path → path → gmap path node → option (gmap path node).

(** [geomqa/config.py]: the allow-lists of versions. *)
Variables MRTRIX_VERSIONS NIFTYREG_VERSIONS : list string.

(** [pathlib.Path(__file__).resolve().parent] *)
Variable pkg_dp : path.

(** The working directory of the process, which the program never
    changes. *)
Variable cwd : path.

(** [subprocess.run(c, check=check)]; the result holds [returncode] and
    [stdout]. *)
Definition sp_run (c : cmd) (check : bool) : M (Z * string) :=
  log (Run c);;
  fs ← get_fs;
  match exec c fs with
  | NoSuchExecutable => raise (FileNotFoundError "")
  | Completed returncode out fs' =>
      set_fs fs';;
      if check && negb (returncode =? 0)%Z
      then raise (CalledProcessError returncode c)
      else mret (returncode, out)
  end.

(** [subprocess.Popen(c, stderr=PIPE, stdout=PIPE)]: the child is started
    and its status and output are never looked at.  It runs beside the
    program; what it does to the file system is taken here as done when
    the call returns, so that the later steps see it. *)
Definition sp_Popen (c : cmd) : M unit :=
  log (Spawn c);;
  fs ← get_fs;
  match exec c fs with
  | NoSuchExecutable => raise (FileNotFoundError "")
  | Completed _ _ fs' => set_fs fs'
  end.

(** [try: m / except FileNotFoundError: handler] *)
Definition except_FileNotFoundError {A} (m handler : M A) : M A := fun w =>
  match m w with
  | (Raise (FileNotFoundError _), w') => handler w'
  | other => other
  end.

(** *** [geomqa/vercheck.py] *)

Definition mrinfo_cmd : cmd := [S_ "mrinfo"; S_ "-version"].

Definition mrinfo_missing : string :=
  "ERROR: mrinfo (an mrtrix command) used to check version is not in your path, exiting"
  +:+ Text.nl.

Definition get_mrtrix_ver : M string :=
  sp_out ← except_FileNotFoundError
              (sp_run mrinfo_cmd true)
              (stderr_write mrinfo_missing;; sys_exit 1);
  let mrinfo_out := Text.strip (snd sp_out) in
  mrinfo_out_first_line ← index (Text.splitlines mrinfo_out) 0;
  index (Text.split " "%char mrinfo_out_first_line) 2.

(** [niftyreg_dp] is [args.niftyreg] as it was written: [main] passes
    it on unresolved. *)
Definition get_niftyreg_ver (niftyreg_dp : given_path) : M string :=
  fs ← get_fs;
  if negb (Fs.is_dir fs (locate cwd niftyreg_dp))
  then raise (FileNotFoundError "niftyreg not found")
  else
    let reg_aladin_fp := niftyreg_dp /// "reg_aladin" in
    sp_out ← sp_run [G_ reg_aladin_fp; S_ "-version"] false;
    mret (Text.strip (snd sp_out)).

Definition pass_line (lib_name lib_ver : string) : string :=
  "** PASS version check on " +:+ lib_name +:+ " (" +:+ lib_ver +:+ ")".

Definition fail_line (lib_name : string) : string :=
  "** FAIL using non-validated " +:+ lib_name +:+ " version".

Definition expected_line (expected_lib_ver_list : list string)
    (lib_ver : string) : string :=
  "*** expected " +:+ Text.join " or " expected_lib_ver_list
  +:+ ", got " +:+ lib_ver.

Definition check_lib_ver (lib_name lib_ver : string)
    (expected_lib_ver_list : list string) (any_ver : bool) : M unit :=
  if bool_decide (lib_ver ∈ expected_lib_ver_list) then
    print (pass_line lib_name lib_ver)
  else
    print (fail_line lib_name);;
    print (expected_line expected_lib_ver_list lib_ver);;
    if negb any_ver then
      stderr_write ("** exiting" +:+ Text.nl);;
      sys_exit 1
    else mret ().

(** *** [geomqa/geomqa.py]: the paths of one job *)

Record job : Type := Job {
  results_dp : path;
  ct_lnk_fp : path;
  rigid_fp : path;
  affine_fp : path;
  nonrigid_fp : path;
  cpp_fp : path;
  disp_field_fp : path;
  mag_displ_field_ct_fp : path;
  mr2ct_deformation_fp : path;
  ct2mr_deformation_fp : path;
  mag_displ_field_mri_fp : path;
  fig_fp : path
}.

(** The assignments at the head of the loop body of [main], for the
    output directory [out_dp] and the name [mri_name] of the input file. *)
Definition derive_job (out_dp : path) (mri_name : string) : job :=
  let results_dp := out_dp // remove_niigz mri_name in
  {| results_dp := results_dp;
     ct_lnk_fp := results_dp // "ct.nii.gz";
     rigid_fp := results_dp // "mr2ct_rigid.nii.gz";
     affine_fp := results_dp // "mr2ct_rigid.aff";
     nonrigid_fp := results_dp // "mr2ct_nonrigid.nii.gz";
     cpp_fp := results_dp // "mr2ct_cpp.nii.gz";
     disp_field_fp := results_dp // "displ_field_ct.nii.gz";
     mag_displ_field_ct_fp := results_dp // "mag_displ_field_ct.nii.gz";
     mr2ct_deformation_fp := results_dp // "mr2ct_deformation.nii.gz";
     ct2mr_deformation_fp := results_dp // "ct2mr_deformation.nii.gz";
     mag_displ_field_mri_fp := results_dp // "mag_displ_field_mri.nii.gz";
     fig_fp := out_dp // (remove_niigz mri_name +:+ "_distortion_results.pdf") |}.

(** The ten paths inside the job directory, in the order of the source. *)
Definition job_files (j : job) : list path :=
  [ct_lnk_fp j; rigid_fp j; affine_fp j; nonrigid_fp j; cpp_fp j;
   disp_field_fp j; mag_displ_field_ct_fp j; mr2ct_deformation_fp j;
   ct2mr_deformation_fp j; mag_displ_field_mri_fp j].

(** Every path derived for a job. *)
Definition job_paths (j : job) : list path :=
  results_dp j :: job_files j ++ [fig_fp j].

(** *** The command lines *)

Definition ct_fp : path := pkg_dp // "ct.nii.gz".
Definition ctmask_fp : path := pkg_dp // "ctmask.nii.gz".

Section Commands.

Variable niftyreg_dp : given_path.
Variables (mri_fp : path) (j : job).

Definition reg_aladin_fp : given_path := niftyreg_dp /// "reg_aladin".
Definition reg_f3d_fp : given_path := niftyreg_dp /// "reg_f3d".
Definition reg_resample_fp : given_path := niftyreg_dp /// "reg_resample".
Definition reg_transform_fp : given_path := niftyreg_dp /// "reg_transform".

Definition rigid_cmd : cmd :=
  [G_ reg_aladin_fp; S_ "-ref"; P_ ct_fp; S_ "-flo"; P_ mri_fp;
   S_ "-rmask"; P_ ctmask_fp; S_ "-res"; P_ (rigid_fp j); S_ "-rigOnly";
   S_ "-aff"; P_ (affine_fp j)].

Definition nonrigid_cmd : cmd :=
  [G_ reg_f3d_fp; S_ "-ref"; P_ ct_fp; S_ "-flo"; P_ (rigid_fp j);
   S_ "-rmask"; P_ ctmask_fp; S_ "-res"; P_ (nonrigid_fp j);
   S_ "-cpp"; P_ (cpp_fp j); S_ "-be"; S_ "0.005"; S_ "-maxit"; S_ "500";
   S_ "-sx"; S_ "15"; S_ "-ln"; S_ "4"; S_ "-lp"; S_ "2"].

Definition mrview_cmd : cmd :=
  [S_ "mrview"; P_ ct_fp; S_ "-voxel"; S_ "271,257,134"; S_ "-mode"; S_ "2";
   S_ "-intensity_range"; S_ "1000,1500";
   S_ "-overlay.load"; P_ (rigid_fp j); S_ "-overlay.opacity"; S_ "0.6";
   S_ "-overlay.colour"; S_ "1,0,0"; S_ "-overlay.intensity"; S_ "200,4095";
   S_ "-overlay.threshold_min"; S_ "200";
   S_ "-overlay.load"; P_ (nonrigid_fp j); S_ "-overlay.opacity"; S_ "0.6";
   S_ "-overlay.colour"; S_ "0,0,1"; S_ "-overlay.intensity"; S_ "200,4095";
   S_ "-overlay.threshold_min"; S_ "200"].

Definition disp_cmd : cmd :=
  [G_ reg_transform_fp; S_ "-ref"; P_ ct_fp; S_ "-disp"; P_ (cpp_fp j);
   P_ (disp_field_fp j)].

Definition mag_displ_field_cmd : cmd :=
  [S_ "mrmath"; S_ "-axis"; S_ "4"; P_ (disp_field_fp j); S_ "norm";
   P_ (mag_displ_field_ct_fp j)].

Definition compose_cmd : cmd :=
  [G_ reg_transform_fp; S_ "-ref"; P_ ct_fp; S_ "-comp"; P_ (affine_fp j);
   P_ (cpp_fp j); P_ (mr2ct_deformation_fp j)].

Definition invert_cmd : cmd :=
  [G_ reg_transform_fp; S_ "-ref"; P_ ct_fp; S_ "-invNrr";
   P_ (mr2ct_deformation_fp j); P_ mri_fp; P_ (ct2mr_deformation_fp j)].

Definition resample_cmd : cmd :=
  [G_ reg_resample_fp; S_ "-ref"; P_ mri_fp; S_ "-flo";
   P_ (mag_displ_field_ct_fp j); S_ "-trans"; P_ (ct2mr_deformation_fp j);
   S_ "-res"; P_ (mag_displ_field_mri_fp j); S_ "-inter"; S_ "1"].

End Commands.

(** [contour(b_fp, c_fp, fig_fp)]: the drawing itself is left to the
    plotting library. *)
Definition contour (b_fp c_fp fig_fp : path) : M unit :=
  log (Plot b_fp c_fp fig_fp);;
  fs ← get_fs;
  match render b_fp c_fp fig_fp fs with
  | Some fs' => set_fs fs'
  | None => raise RenderError
  end.

(** The body of the loop of [main] for one resolved input path. *)
Definition process_file (niftyreg_dp : given_path) (out_dp mri_fp : path)
    : M unit :=
  print ("* processing " +:+ name mri_fp);;
  let j := derive_job out_dp (name mri_fp) in
  Fs.mkdir (results_dp j);;
  Fs.symlink_to (ct_lnk_fp j) ct_fp;;
  print "** registering MRI to CT";;
  print "*** rigid registration with reg_aladin";;
  sp_run (rigid_cmd niftyreg_dp mri_fp j) true;;
  print "*** non-rigid registration with reg_f3d";;
  sp_run (nonrigid_cmd niftyreg_dp j) true;;
  print "*** displaying registered images with FSLeyes";;
  sp_Popen (mrview_cmd j);;
  print "** calculating displacement field in CT-space with reg_transform";;
  sp_run (disp_cmd niftyreg_dp j) true;;
  print "** calculating root mean square of displacement field in CT-space";;
  sp_run (mag_displ_field_cmd j) true;;
  print "** transforming results into MRI space";;
  print "*** composing mr2ct_rigid.aff and mr2ct_cpp.nii.gz with reg_transform";;
  sp_run (compose_cmd niftyreg_dp j) true;;
  print "*** inverting composed transformation with reg_transform";;
  sp_run (invert_cmd niftyreg_dp mri_fp j) true;;
  print "*** resampling into MRI space with reg_resample";;
  sp_run (resample_cmd niftyreg_dp mri_fp j) true;;
  print "** plotting results";;
  contour mri_fp (mag_displ_field_mri_fp j) (fig_fp j).

(** [for x in l: body(x)] *)
Fixpoint for_each {A} (body : A → M unit) (l : list A) : M unit :=
  match l with
  | [] => mret ()
  | x :: rest => body x;; for_each body rest
  end.

(** The two checks at the head of [main]. *)
Definition version_gate (niftyreg_dp : given_path) (any_version : bool)
    : M unit :=
  print "* checking versions of external software";;
  mrtrix_ver ← get_mrtrix_ver;
  check_lib_ver "MRtrix" mrtrix_ver MRTRIX_VERSIONS any_version;;
  niftyreg_ver ← get_niftyreg_ver niftyreg_dp;
  check_lib_ver "niftyreg" niftyreg_ver NIFTYREG_VERSIONS any_version.

(** [main] once the arguments are parsed: [n] holds the resolved paths of
    [sorted(args.n)] in that order, [o] is [args.o.resolve()] and
    [niftyreg] is [args.niftyreg] as it was written. *)
Definition main (n : list path) (o : path) (niftyreg : given_path)
    (any_version : bool) : M unit :=
  version_gate niftyreg any_version;;
  let out_dp := o in
  for_each (process_file niftyreg out_dp) n.

End Program.

(** ** Vocabulary of the properties *)

(** The spec's words for the version banner: "tokenized by whitespace".
    The pieces between runs of whitespace, none of them empty (what
    [str.split()] without an argument gives). *)
Fixpoint whitespace_tokens (s : string) : list string :=
  match s with
  | EmptyString => []
  | String c s' =>
      if Text.isspace c then whitespace_tokens s'
      else
        match s' with
        | EmptyString => [String c EmptyString]
        | String d _ =>
            if Text.isspace d then String c EmptyString :: whitespace_tokens s'
            else Text.cons_first c (whitespace_tokens s')
        end
  end.

(** [suffix] spells [ext] with at least one upper-case letter. *)
Definition case_variant (ext suffix : string) : Prop :=
  Text.lower suffix = ext ∧ suffix ≠ ext.

(** A segment [pathlib] keeps when it joins. *)
Definition proper_segment (seg : string) : Prop := seg ≠ "" ∧ seg ≠ ".".

(** The file names inside a job directory, in the order of the source. *)
Definition job_file_names : list string :=
  ["ct.nii.gz"; "mr2ct_rigid.nii.gz"; "mr2ct_rigid.aff";
   "mr2ct_nonrigid.nii.gz"; "mr2ct_cpp.nii.gz"; "displ_field_ct.nii.gz";
   "mag_displ_field_ct.nii.gz"; "mr2ct_deformation.nii.gz";
   "ct2mr_deformation.nii.gz"; "mag_displ_field_mri.nii.gz"].

(** The files written for a job: the ten in its directory and the figure. *)
Definition job_outputs (j : job) : list path := job_files j ++ [fig_fp j].

(** Two stripped names that give their jobs a path in common: they are
    equal; or one is the other followed by [_distortion_results.pdf], so
    that the job directory of the one is the figure of the other; or one
    is empty or a single dot, so that its job directory is the output
    directory itself, and the other is of that kind too or is the name of
    a job file. *)
Definition stems_clash (s1 s2 : string) : Prop :=
  s1 = s2
  ∨ s1 = s2 +:+ "_distortion_results.pdf"
  ∨ s2 = s1 +:+ "_distortion_results.pdf"
  ∨ (¬ proper_segment s1 ∧ ¬ proper_segment s2)
  ∨ (¬ proper_segment s1 ∧ s2 ∈ job_file_names)
  ∨ (¬ proper_segment s2 ∧ s1 ∈ job_file_names).

(** [.nii] occurs in [s] in no letter case. *)
Definition nii_free (s : string) : Prop :=
  Text.contains ".nii" (Text.lower s) = false.

(** The calls that start a process, and the blocking ones among them. *)
Definition is_call (e : event) : bool :=
  match e with Run _ | Spawn _ => true | _ => false end.

Definition is_blocking (e : event) : bool :=
  match e with Run _ => true | _ => false end.

Definition calls (t : list event) : list event := filter is_call t.

(** The flag interface of the external tools: a path after [-res],
    [-aff] or [-cpp] is written, and so is a path in the last position;
    every other path after the executable is read.  [after_out] tells
    whether the argument before was one of the three flags. *)
Definition out_flags : list string := ["-res"; "-aff"; "-cpp"].

Fixpoint classify (after_out : bool) (c : cmd) : list (bool * path) :=
  match c with
  | [] => []
  | P_ p :: rest =>
      match rest with
      | [] => [(true, p)]
      | _ => (after_out, p) :: classify false rest
      end
  | S_ flag :: rest => classify (bool_decide (flag ∈ out_flags)) rest
  end.

Definition outputs (c : cmd) : list path :=
  snd <$> filter (fun r => fst r = true) (classify false (tail c)).

Definition inputs (c : cmd) : list path :=
  snd <$> filter (fun r => fst r = false) (classify false (tail c)).

(** Some input of the [i]-th command is written by an earlier one. *)
Definition consumes_earlier (cs : list cmd) (i : nat) : Prop :=
  ∃ c p, cs !! i = Some c ∧ p ∈ inputs c ∧
         ∃ k c', k < i ∧ cs !! k = Some c' ∧ p ∈ outputs c'.

Definition run_cmds (t : list event) : list cmd :=
  omap (fun e => match e with Run c => Some c | _ => None end) t.

Section JobCalls.

Variable pkg_dp : path.
Variable niftyreg_dp : given_path.
Variables (mri_fp : path) (j : job).

(** The processes [process_file] starts for a job, in order. *)
Definition job_calls : list event :=
  [Run (rigid_cmd pkg_dp niftyreg_dp mri_fp j);
   Run (nonrigid_cmd pkg_dp niftyreg_dp j);
   Spawn (mrview_cmd pkg_dp j);
   Run (disp_cmd pkg_dp niftyreg_dp j);
   Run (mag_displ_field_cmd j);
   Run (compose_cmd pkg_dp niftyreg_dp j);
   Run (invert_cmd pkg_dp niftyreg_dp mri_fp j);
   Run (resample_cmd niftyreg_dp mri_fp j)].

End JobCalls.

(** [m] starts the processes [evs], in this order, and no other: a run
    that raises has started the first few of them, a run that returns has
    started them all. *)
Definition emits {A} (m : M A) (evs : list event) : Prop :=
  ∀ w, ∃ started,
    started `prefix_of` evs ∧
    calls (w_trace (m w).2) = calls (w_trace w) ++ started ∧
    (∀ a, (m w).1 = Return a → started = evs).

(** A token of the version banner: not empty and free of whitespace. *)
Fixpoint all_chars (P : ascii → bool) (s : string) : bool :=
  match s with
  | EmptyString => true
  | String c s' => P c && all_chars P s'
  end.

Definition is_token (t : string) : Prop :=
  t ≠ "" ∧ all_chars (fun c => negb (Text.isspace c)) t = true.

(** The command line of the niftyreg version query. *)
Definition reg_aladin_version_cmd (niftyreg_dp : given_path) : cmd :=
  [G_ (niftyreg_dp /// "reg_aladin"); S_ "-version"].

(** Where the system looks for the program named by the first argument
    of a command, as [execvp] does: a bare name in each directory of
    [search], a name with a slash from the working directory [cwd], an
    absolute path where it points. *)
Definition program_files (search : list path) (cwd : path) (a : arg)
    : list path :=
  match a with
  | P_ p => [p]
  | S_ s =>
      if Text.has_char "/"%char s then [cwd ++ Text.split "/"%char s]
      else (fun dir => dir ++ [s]) <$> search
  end.

(** A machine with the search path [search]: a command whose program is
    found as a regular file prints [v1.5.76] and ends with status 0,
    changing nothing; any other command cannot be started. *)
Definition machine_with_search (search : list path) (cwd : path)
    : cmd → gmap path node → launch :=
  fun c fs =>
    match c with
    | [] => NoSuchExecutable
    | a :: _ =>
        if bool_decide
             (Exists (fun p => Fs.stat Fs.MAXSYMLINKS fs p = Some Regular)
                     (program_files search cwd a))
        then Completed 0 ("v1.5.76" +:+ Text.nl) fs
        else NoSuchExecutable
    end.

(** When [m] starts on a file system with [P] and returns, it leaves a
    file system with [Q]. *)
Definition ensures {A : Type} (P : gmap path node → Prop) (m : M A)
    (Q : gmap path node → Prop) : Prop :=
  ∀ w, P (w_fs w) → ∀ a, (m w).1 = Return a → Q (w_fs (m w).2).

(** The external programs only add entries to the file system. *)
Definition additive (exec : cmd → gmap path node → launch) : Prop :=
  ∀ c fs returncode out fs',
    exec c fs = Completed returncode out fs' → fs ⊆ fs'.

Definition additive_render
    (render : path → path → path → gmap path node → option (gmap path node))
    : Prop :=
  ∀ b c fig fs fs', render b c fig fs = Some fs' → fs ⊆ fs'.

(** The job directory [dp] is there and holds the entry [link]. *)
Definition linked (dp link : path) (fs : gmap path node) : Prop :=
  Fs.is_dir fs dp = true ∧ is_Some (Fs.lstat fs link).

(** ** Vocabulary of the further properties *)

(** [m] raises [CalledProcessError] only for a command that ended with
    a status other than 0 and that is the last thing [m] did. *)
Definition aborts_at_failed_command {A : Type} (m : M A) : Prop :=
  ∀ w returncode c,
    (m w).1 = Raise (CalledProcessError returncode c) →
    returncode ≠ 0%Z ∧ last (w_trace (m w).2) = Some (Run c).

(** [m] never returns. *)
Definition never_returns {A : Type} (m : M A) : Prop :=
  ∀ w a, (m w).1 ≠ Return a.

(** Whatever its outcome, [m] keeps the property [P] of the file system. *)
Definition keeps {A : Type} (P : gmap path node → Prop) (m : M A) : Prop :=
  ∀ w, P (w_fs w) → P (w_fs (m w).2).

(** A property of file systems that adding entries cannot undo. *)
Definition monotone (P : gmap path node → Prop) : Prop :=
  ∀ fs fs', fs ⊆ fs' → P fs → P fs'.

(** The job directory [dp] is there and [link] in it is a symbolic link
    to [target]. *)
Definition link_in_place (dp link target : path) (fs : gmap path node) : Prop :=
  Fs.is_dir fs dp = true ∧ Fs.lstat fs link = Some (Symlink target).

(** The characters of a string, as a list. *)
Definition chars (s : string) : list ascii := String.list_ascii_of_string s.

(** The last character of [s], if any. *)
Fixpoint last_char (s : string) : option ascii :=
  match s with
  | EmptyString => None
  | String c EmptyString => Some c
  | String _ s' => last_char s'
  end.

(** The first character of [s], if any. *)
Definition first_char (s : string) : option ascii :=
  match s with
  | EmptyString => None
  | String c _ => Some c
  end.

(** [s] neither starts nor ends with whitespace. *)
Definition trimmed (s : string) : Prop :=
  (∀ c, first_char s = Some c → Text.isspace c = false) ∧
  (∀ c, last_char s = Some c → Text.isspace c = false).

(** A machine on which every program runs to its end with status 0:
    [mrinfo -version] prints the banner of MRtrix 3.0.4, every other
    command prints [v1.5.76], and no program changes the file system. *)
Definition machine : cmd → gmap path node → launch :=
  fun c fs =>
    if bool_decide (c = mrinfo_cmd)
    then Completed 0 ("== mrinfo 3.0.4 ==" +:+ Text.nl +:+ "64 bit release") fs
    else Completed 0 ("v1.5.76" +:+ Text.nl) fs.

(** The machine on which [mrview] is not installed. *)
Definition machine_without_viewer : cmd → gmap path node → launch :=
  fun c fs =>
    match c with
    | S_ "mrview" :: _ => NoSuchExecutable
    | _ => machine c fs
    end.

(** The machine on which [mrmath] fails with status 1. *)
Definition machine_with_failing_mrmath : cmd → gmap path node → launch :=
  fun c fs =>
    match c with
    | S_ "mrmath" :: _ => Completed 1 "" fs
    | _ => machine c fs
    end.

(** The machine on which the command [viewer] crashes with status 9
    after printing, and touches no file. *)
Definition machine_with_crashing (viewer : cmd)
    : cmd → gmap path node → launch :=
  fun c fs =>
    if bool_decide (c = viewer) then Completed 9 "crash" fs else machine c fs.

(** Two launches that differ at most in the exit status and the output:
    the process can be started in both or in neither, and it leaves the
    same file system. *)
Definition same_effect (l1 l2 : launch) : Prop :=
  match l1, l2 with
  | NoSuchExecutable, NoSuchExecutable => True
  | Completed _ _ fs1, Completed _ _ fs2 => fs1 = fs2
  | _, _ => False
  end.

(** What the gate prints about the version [ver] of the library
    [lib_name]: the PASS line, or the FAIL line and the line of the
    versions expected. *)
Definition report (lib_name ver : string) (allowed : list string) : string :=
  if bool_decide (ver ∈ allowed) then
    "** PASS version check on " +:+ lib_name +:+ " (" +:+ ver +:+ ")"
    +:+ String "010"%char EmptyString
  else
    ("** FAIL using non-validated " +:+ lib_name +:+ " version"
     +:+ String "010"%char EmptyString)
    +:+ "*** expected " +:+ Text.join " or " allowed +:+ ", got " +:+ ver
    +:+ String "010"%char EmptyString.

(** The processes [main] starts for the inputs [n], in order: the two
    version queries, then the processes of each job in turn. *)
Definition main_calls (pkg_dp : path) (niftyreg : given_path) (o : path)
    (n : list path) : list event :=
  [Run mrinfo_cmd; Run (reg_aladin_version_cmd niftyreg)]
  ++ concat ((fun mri_fp =>
                job_calls pkg_dp niftyreg mri_fp (derive_job o (name mri_fp)))
             <$> n).

(** A plotting library that writes nothing and never raises. *)
Definition render_nothing
    : path → path → path → gmap path node → option (gmap path node) :=
  fun _ _ _ fs => Some fs.

(** * Facts *)

(** ** Strings *)

Module TextFacts.

Lemma app_nil_r (s : string) : s +:+ "" = s.
Proof. induction s as [|c s IH]; [done|]. cbn. by rewrite IH. Qed.

Lemma app_assoc (a b c : string) : (a +:+ b) +:+ c = a +:+ (b +:+ c).
Proof. induction a as [|x a IH]; [done|]. cbn. by rewrite IH. Qed.

Lemma app_length (a b : string) :
  String.length (a +:+ b) = String.length a + String.length b.
Proof. induction a as [|x a IH]; [done|]. cbn. by rewrite IH. Qed.

Lemma app_inv_tail (a b t : string) : a +:+ t = b +:+ t → a = b.
Proof.
  revert b. induction a as [|x a IH]; intros [|y b] H; cbn in H.
  - done.
  - apply (f_equal String.length) in H. cbn in H. rewrite app_length in H. lia.
  - apply (f_equal String.length) in H. cbn in H. rewrite app_length in H. lia.
  - injection H as -> H. f_equal. by apply IH.
Qed.

Lemma app_inv_head (h a b : string) : h +:+ a = h +:+ b → a = b.
Proof. induction h as [|x h IH]; cbn; [done|]. intros [= H]. by apply IH. Qed.

Lemma startswith_spec (needle s : string) :
  Text.startswith needle s = true ↔ ∃ rest, s = needle +:+ rest.
Proof.
  revert s. induction needle as [|a needle IH]; intros s; cbn.
  - split; [intros _; by exists s | done].
  - destruct s as [|b s].
    + split; [done | intros [rest H]; discriminate H].
    + destruct (Ascii.eqb_spec a b) as [->|Hne].
      * rewrite IH. split; intros [rest H]; exists rest.
        -- by rewrite H.
        -- by injection H.
      * split; [done | intros [rest H]; injection H as H _; done].
Qed.

(** [contains] finds exactly the occurrences of the needle. *)
Lemma contains_spec (a : ascii) (needle s : string) :
  Text.contains (String a needle) s = true ↔
  ∃ pre post, s = pre +:+ String a needle +:+ post.
Proof.
  induction s as [|c s IH]; cbn [Text.contains].
  - split; [done|]. intros ([|x pre] & post & H); discriminate H.
  - rewrite orb_true_iff, IH, startswith_spec. split.
    + intros [[rest H]|(pre & post & H)].
      * exists "", rest. by rewrite H.
      * exists (String c pre), post. by rewrite H.
    + intros ([|x pre] & post & H).
      * left. exists post. exact H.
      * right. exists pre, post. by injection H.
Qed.

Lemma has_char_app (c : ascii) (a b : string) :
  Text.has_char c (a +:+ b) = Text.has_char c a || Text.has_char c b.
Proof.
  induction a as [|x a IH]; [done|]. cbn. rewrite IH. by rewrite orb_assoc.
Qed.

End TextFacts.

(** ** The substitution loop *)

Module ReFacts.

Import Re.

Lemma match_here_length (pat : regex) (s rest : string) :
  match_here pat s = Some rest →
  String.length s = length pat + String.length rest.
Proof.
  revert s. induction pat as [|a pat IH]; intros s H; cbn in H.
  - by injection H as ->.
  - destruct s as [|c s]; [done|].
    destruct (atom_matches a c); [|done].
    cbn. by rewrite (IH _ H).
Qed.

(** The loop never needs more steps than [s] has characters. *)
Lemma sub_loop_fuel (f : nat) (pat : regex) (repl : string)
    (count n : nat) (s : string) :
  pat ≠ [] → String.length s ≤ f →
  sub_loop f pat repl count n s = sub_loop (String.length s) pat repl count n s.
Proof.
  intros Hpat. revert n s.
  induction f as [f IH] using lt_wf_ind. intros n s Hf.
  destruct f as [|f].
  - destruct s; [done | cbn in Hf; lia].
  - destruct s as [|c s]; cbn [String.length sub_loop].
    + by destruct (_ || _).
    + destruct (_ || _); [|done].
      destruct (match_here pat (String c s)) as [rest|] eqn:Hm.
      * apply match_here_length in Hm. cbn in Hm, Hf.
        assert (0 < length pat) by (destruct pat; [done | cbn; lia]).
        rewrite (IH f) by lia. rewrite (IH (String.length s)) by lia. done.
      * cbn in Hf. rewrite (IH f) by lia. done.
Qed.

(** Deleting never lengthens. *)
Lemma sub_loop_length_le (f : nat) (pat : regex) (count n : nat) (s : string) :
  String.length (sub_loop f pat "" count n s) ≤ String.length s.
Proof.
  revert n s. induction f as [|f IH]; intros n s; cbn; [done|].
  destruct (_ || _); [|done].
  destruct s as [|c s]; [done|].
  destruct (match_here pat (String c s)) as [rest|] eqn:Hm.
  - apply match_here_length in Hm. cbn [String.append].
    specialize (IH (S n) rest). lia.
  - cbn. specialize (IH n s). lia.
Qed.

(** Where the pattern matches nowhere, the text is returned as it is. *)
Lemma sub_loop_noop (f : nat) (pat : regex) (repl : string)
    (count n : nat) (s : string) :
  search pat s = false → sub_loop f pat repl count n s = s.
Proof.
  revert s. induction f as [|f IH]; intros s Hs; cbn; [done|].
  destruct (_ || _); [|done].
  destruct s as [|c s]; [done|].
  cbn [search] in Hs. apply orb_false_iff in Hs as [Hm Hs].
  apply bool_decide_eq_false in Hm.
  destruct (match_here pat (String c s)) as [rest|].
  - exfalso. apply Hm. by eexists.
  - by rewrite IH.
Qed.

(** Where it matches and a replacement is still allowed, the text shrinks. *)
Lemma sub_loop_shrinks (f : nat) (pat : regex) (count n : nat) (s : string) :
  pat ≠ [] → search pat s = true → (count =? 0) || (n <? count) = true →
  String.length s ≤ f →
  String.length (sub_loop f pat "" count n s) < String.length s.
Proof.
  intros Hpat Hs Hc. revert s Hs.
  induction f as [|f IH]; intros s Hs Hf.
  - destruct s; [done | cbn in Hf; lia].
  - cbn [sub_loop]. rewrite Hc.
    destruct s as [|c s]; [done|].
    destruct (match_here pat (String c s)) as [rest|] eqn:Hm.
    + pose proof (match_here_length _ _ _ Hm) as Hl.
      pose proof (sub_loop_length_le f pat count (S n) rest) as Hle.
      assert (0 < length pat) by (destruct pat; [done | cbn; lia]).
      cbn [String.append]. lia.
    + cbn [search] in Hs. rewrite Hm in Hs.
      rewrite bool_decide_eq_false_2 in Hs by (by intros [? ?]).
      cbn in Hs, Hf. specialize (IH s Hs). cbn. lia.
Qed.

(** [re.sub] with an empty replacement and a positive count leaves the
    text alone exactly when the pattern matches nowhere. *)
Lemma sub_fixed_iff (pat : regex) (count : nat) (s : string) :
  pat ≠ [] → 0 < count →
  sub pat "" s count = s ↔ search pat s = false.
Proof.
  intros Hpat Hc. unfold sub. split.
  - intros H. destruct (search pat s) eqn:Hs; [|done].
    assert ((count =? 0) || (0 <? count) = true) as Hb.
    { apply orb_true_iff. right. by apply Nat.ltb_lt. }
    pose proof (sub_loop_shrinks (String.length s) pat count 0 s Hpat Hs Hb
                  ltac:(lia)) as Hlt.
    rewrite H in Hlt. lia.
  - apply sub_loop_noop.
Qed.

Lemma sub_length_le (pat : regex) (count : nat) (s : string) :
  String.length (sub pat "" s count) ≤ String.length s.
Proof. apply sub_loop_length_le. Qed.

End ReFacts.

(** ** [remove_niigz] *)

Module StripFacts.

Import Re.

Lemma match_nii_startswith (s : string) :
  bool_decide (is_Some (match_here re_nii s)) = Text.startswith ".nii" s.
Proof.
  destruct s as [|c1 [|c2 [|c3 [|c4 s]]]]; cbn -[Ascii.eqb];
    repeat (match goal with
            | |- context [Ascii.eqb ?a ?b] => destruct (Ascii.eqb a b)
            end; cbn -[Ascii.eqb]);
    first [ done
          | by apply bool_decide_eq_false_2; intros [? ?]
          | by apply bool_decide_eq_true_2 ].
Qed.

Lemma match_niigz_startswith (s : string) :
  is_Some (match_here re_niigz s) → Text.startswith ".nii" s = true.
Proof.
  destruct s as [|c1 [|c2 [|c3 [|c4 s]]]]; cbn -[Ascii.eqb];
    repeat (match goal with
            | |- context [Ascii.eqb ?a ?b] => destruct (Ascii.eqb a b)
            end; cbn -[Ascii.eqb]);
    try (by intros [? ?]); done.
Qed.

Lemma search_nii (s : string) : search re_nii s = Text.contains ".nii" s.
Proof.
  induction s as [|c s IH]; [done|].
  cbn [search Text.contains]. by rewrite match_nii_startswith, IH.
Qed.

Lemma search_niigz (s : string) :
  search re_niigz s = true → Text.contains ".nii" s = true.
Proof.
  induction s as [|c s IH]; [done|].
  cbn [search Text.contains]. rewrite !orb_true_iff.
  intros [H|H]; [left | right; by apply IH].
  apply match_niigz_startswith. by apply bool_decide_eq_true in H.
Qed.

Lemma search_niigz_false (s : string) :
  Text.contains ".nii" s = false → search re_niigz s = false.
Proof.
  intros H. destruct (search re_niigz s) eqn:E; [|done].
  apply search_niigz in E. congruence.
Qed.

(** The fixed points of [remove_niigz] are the strings in which [.nii]
    does not occur. *)
Lemma remove_niigz_fixed_iff (s : string) :
  remove_niigz s = s ↔ Text.contains ".nii" s = false.
Proof.
  unfold remove_niigz. split.
  - intros H. destruct (Text.contains ".nii" s) eqn:Hc; [exfalso|done].
    pose proof (ReFacts.sub_length_le re_niigz I s) as H1.
    pose proof (ReFacts.sub_length_le re_nii I (sub re_niigz "" s I)) as H2.
    rewrite H in H2.
    destruct (search re_niigz s) eqn:Hs.
    + pose proof (ReFacts.sub_loop_shrinks (String.length s) re_niigz I 0 s
                    ltac:(done) Hs eq_refl ltac:(lia)) as Hlt.
      unfold sub in H2. lia.
    + assert (sub re_niigz "" s I = s) as E
        by (apply ReFacts.sub_fixed_iff; [done | unfold I; lia | done]).
      rewrite E in H. rewrite <- search_nii in Hc.
      apply ReFacts.sub_fixed_iff in H; [congruence | done | unfold I; lia].
  - intros Hc.
    assert (sub re_niigz "" s I = s) as ->.
    { apply ReFacts.sub_fixed_iff; [done | unfold I; lia |].
      by apply search_niigz_false. }
    apply ReFacts.sub_fixed_iff; [done | unfold I; lia |].
    by rewrite search_nii.
Qed.

(** An occurrence of [.nii] cannot straddle the point where a text free of
    it is followed by a dot. *)
Lemma startswith_nii_boundary (a rest : string) :
  a ≠ "" → Text.startswith ".nii" a = false →
  Text.startswith ".nii" (a +:+ String "."%char rest) = false.
Proof.
  intros Ha.
  destruct a as [|c1 [|c2 [|c3 [|c4 a]]]]; [done|..]; cbn -[Ascii.eqb];
    repeat (match goal with
            | |- context [Ascii.eqb ?a ?b] => destruct (Ascii.eqb_spec a b)
            end; cbn -[Ascii.eqb]); try done.
Qed.

Lemma match_niigz_none (s : string) :
  Text.startswith ".nii" s = false → match_here re_niigz s = None.
Proof.
  intros H. destruct (match_here re_niigz s) as [rest|] eqn:E; [|done].
  rewrite match_niigz_startswith in H; [done | by eexists].
Qed.

Lemma match_nii_none (s : string) :
  Text.startswith ".nii" s = false → match_here re_nii s = None.
Proof.
  intros H. rewrite <- match_nii_startswith in H.
  apply bool_decide_eq_false in H.
  destruct (match_here re_nii s); [|done]. exfalso. apply H. by eexists.
Qed.

(** Scanning a stem free of [.nii] copies it and reaches the suffix with
    the replacement count untouched. *)
Lemma sub_loop_stem (f : nat) (pat : regex) (stem : string)
    (ext_tail : string) :
  (∀ s, Text.startswith ".nii" s = false → match_here pat s = None) →
  Text.contains ".nii" stem = false →
  String.length stem ≤ f →
  sub_loop (f + String.length (String "."%char ext_tail)) pat "" I 0
           (stem +:+ String "."%char ext_tail)
  = stem +:+ sub_loop (f - String.length stem
                       + String.length (String "."%char ext_tail)) pat "" I 0
                      (String "."%char ext_tail).
Proof.
  intros Hpat. revert f. induction stem as [|c stem IH]; intros f Hc Hf.
  - cbn [String.length String.append]. by rewrite Nat.sub_0_r.
  - cbn [Text.contains] in Hc. apply orb_false_iff in Hc as [Hs Hc].
    destruct f as [|f]; [cbn in Hf; lia|].
    change (String c stem +:+ String "."%char ext_tail)
      with (String c (stem +:+ String "."%char ext_tail)).
    change (S f + String.length (String "."%char ext_tail))
      with (S (f + String.length (String "."%char ext_tail))).
    cbn [sub_loop]. change ((I =? 0) || (0 <? I)) with true. cbv iota.
    rewrite (Hpat (String c (stem +:+ String "."%char ext_tail))).
    + cbn [String.length] in Hf |- *. rewrite IH by (done || lia).
      by replace (S f - S (String.length stem)) with (f - String.length stem)
        by lia.
    + by apply (startswith_nii_boundary (String c stem) ext_tail).
Qed.

(** A stem free of [.nii] followed by [.nii.gz] or by [.nii] loses
    exactly that suffix. *)
Lemma remove_niigz_gz_suffix (stem : string) :
  Text.contains ".nii" stem = false →
  remove_niigz (stem +:+ ".nii.gz") = stem.
Proof.
  intros Hc. unfold remove_niigz, sub at 2.
  rewrite TextFacts.app_length.
  rewrite (sub_loop_stem _ re_niigz stem "nii.gz" match_niigz_none Hc)
    by done.
  rewrite Nat.sub_diag.
  change (sub_loop _ re_niigz "" I 0 ".nii.gz") with "".
  rewrite TextFacts.app_nil_r.
  apply ReFacts.sub_fixed_iff; [done | unfold I; lia |].
  by rewrite search_nii.
Qed.

Lemma remove_niigz_nii_suffix (stem : string) :
  Text.contains ".nii" stem = false →
  remove_niigz (stem +:+ ".nii") = stem.
Proof.
  intros Hc. unfold remove_niigz.
  assert (sub re_niigz "" (stem +:+ ".nii") I = stem +:+ ".nii") as ->.
  { unfold sub. rewrite TextFacts.app_length.
    rewrite (sub_loop_stem _ re_niigz stem "nii" match_niigz_none Hc) by done.
    by rewrite Nat.sub_diag. }
  unfold sub. rewrite TextFacts.app_length.
  rewrite (sub_loop_stem _ re_nii stem "nii" match_nii_none Hc) by done.
  rewrite Nat.sub_diag.
  change (sub_loop _ re_nii "" I 0 ".nii") with "".
  apply TextFacts.app_nil_r.
Qed.

End StripFacts.
(** ** Letter case *)

Module CaseFacts.

Lemma lower_app (a b : string) :
  Text.lower (a +:+ b) = Text.lower a +:+ Text.lower b.
Proof. induction a as [|c a IH]; [done|]. cbn. by rewrite IH. Qed.

(** A text free of [.nii] in every letter case is free of the exact
    lower-case [.nii]. *)
Lemma nii_free_contains (s : string) :
  nii_free s → Text.contains ".nii" s = false.
Proof.
  unfold nii_free. intros H.
  destruct (Text.contains ".nii" s) eqn:E; [|done].
  apply TextFacts.contains_spec in E as (pre & post & ->).
  rewrite !lower_app in H.
  assert (Text.contains ".nii"
            (Text.lower pre +:+ ".nii" +:+ Text.lower post) = true) as E
    by (apply TextFacts.contains_spec; eauto).
  change (Text.lower ".nii") with ".nii" in H. congruence.
Qed.

End CaseFacts.


(** ** Paths of a job *)

Module PathFacts.

Lemma path_div_proper (p : path) (seg : string) :
  proper_segment seg → p // seg = p ++ [seg].
Proof.
  intros [H1 H2]. unfold path_div.
  rewrite bool_decide_eq_false_2; [done|]. by intros [?|?].
Qed.

Lemma path_div_dropped (p : path) (seg : string) :
  ¬ proper_segment seg → p // seg = p.
Proof.
  intros H. unfold path_div. rewrite bool_decide_eq_true_2; [done|].
  unfold proper_segment in H.
  destruct (decide (seg = "")); [by left|].
  destruct (decide (seg = ".")); [by right|]. exfalso. by apply H.
Qed.

Lemma figure_name_proper (stem : string) :
  proper_segment (stem +:+ "_distortion_results.pdf").
Proof.
  split; intros H; apply (f_equal String.length) in H;
    rewrite TextFacts.app_length in H; cbn in H; lia.
Qed.

Lemma fig_fp_eq (out_dp : path) (mri_name : string) :
  fig_fp (derive_job out_dp mri_name)
  = out_dp ++ [remove_niigz mri_name +:+ "_distortion_results.pdf"].
Proof. cbn. apply path_div_proper, figure_name_proper. Qed.

Lemma job_files_eq (out_dp : path) (mri_name : string) :
  job_files (derive_job out_dp mri_name)
  = (fun f => results_dp (derive_job out_dp mri_name) ++ [f]) <$> job_file_names.
Proof. reflexivity. Qed.

Lemma results_dp_proper (out_dp : path) (mri_name : string) :
  proper_segment (remove_niigz mri_name) →
  results_dp (derive_job out_dp mri_name) = out_dp ++ [remove_niigz mri_name].
Proof. intros H. cbn. by apply path_div_proper. Qed.

(** A directory is none of the paths below it. *)
Lemma below_self_l (p q : path) : p = p ++ q → [] = q.
Proof. intros H. apply (app_inv_head p). by rewrite app_nil_r. Qed.

Lemma below_self_r (p q : path) : p ++ q = p → q = [].
Proof. intros H. apply (app_inv_head p). by rewrite app_nil_r. Qed.

(** The paths of a job, by the stripped name. *)
Lemma elem_of_job_paths (out_dp p : path) (mri_name : string) :
  p ∈ job_paths (derive_job out_dp mri_name) ↔
  p = out_dp // remove_niigz mri_name
  ∨ (∃ f, f ∈ job_file_names ∧ p = (out_dp // remove_niigz mri_name) ++ [f])
  ∨ p = out_dp ++ [remove_niigz mri_name +:+ "_distortion_results.pdf"].
Proof.
  unfold job_paths. rewrite elem_of_cons, elem_of_app, job_files_eq, fig_fp_eq.
  rewrite list_elem_of_fmap, list_elem_of_singleton.
  change (results_dp (derive_job out_dp mri_name))
    with (out_dp // remove_niigz mri_name).
  split.
  - intros [H|[(f & H & Hf)|H]]; [by left | right; left; by exists f | by right; right].
  - intros [H|[(f & Hf & H)|H]]; [by left | right; left; by exists f | by right; right].
Qed.

Lemma job_file_names_proper (f : string) :
  f ∈ job_file_names → proper_segment f.
Proof.
  unfold job_file_names. intros H.
  repeat (apply elem_of_cons in H as [->|H]; [by split|]).
  by apply elem_of_nil in H.
Qed.

(** No job file is named like a figure. *)
Lemma job_file_no_figure (f stem : string) :
  f ∈ job_file_names → f ≠ stem +:+ "_distortion_results.pdf".
Proof.
  unfold job_file_names. intros H E.
  repeat (apply elem_of_cons in H as [->|H];
          [destruct stem as [|c1 [|c2 [|c3 [|c4 stem]]]]; cbn in E;
           try discriminate E;
           apply (f_equal String.length) in E; cbn in E;
           rewrite ?TextFacts.app_length in E; cbn in E; lia|]).
  by apply elem_of_nil in H.
Qed.

End PathFacts.

(** ** Splitting a banner *)

Module TokenFacts.

Lemma split_app_sep (sep : ascii) (t rest : string) :
  Text.has_char sep t = false →
  Text.split sep (t +:+ String sep rest) = t :: Text.split sep rest.
Proof.
  induction t as [|c t IH]; intros H.
  - cbn [Text.split String.append]. by rewrite Ascii.eqb_refl.
  - cbn [Text.has_char] in H. apply orb_false_iff in H as [Hc H].
    cbn [Text.split String.append]. rewrite Ascii.eqb_sym, Hc. by rewrite IH.
Qed.

Lemma split_no_sep (sep : ascii) (t : string) :
  Text.has_char sep t = false → Text.split sep t = [t].
Proof.
  induction t as [|c t IH]; intros H; [done|].
  cbn [Text.has_char] in H. apply orb_false_iff in H as [Hc H].
  cbn [Text.split String.append]. rewrite Ascii.eqb_sym, Hc. by rewrite IH.
Qed.

Lemma token_no_space (t : string) :
  is_token t → Text.has_char " "%char t = false.
Proof.
  intros [_ H]. induction t as [|c t IH]; [done|].
  cbn [all_chars] in H. apply andb_true_iff in H as [Hc H].
  cbn [Text.has_char]. rewrite IH by done. rewrite orb_false_r.
  destruct (Ascii.eqb_spec " "%char c) as [<-|]; [|done].
  vm_compute in Hc. discriminate Hc.
Qed.

(** Pieces joined by single spaces are found again by [split(" ")]. *)
Lemma split_join (tokens : list string) :
  tokens ≠ [] → Forall is_token tokens →
  Text.split " "%char (Text.join " " tokens) = tokens.
Proof.
  intros Hne H. induction H as [|t tokens Ht H IH]; [done|].
  destruct tokens as [|u tokens].
  - cbn. by apply split_no_sep, token_no_space.
  - change (Text.join " " (t :: u :: tokens))
      with (t +:+ String " "%char (Text.join " " (u :: tokens))).
    rewrite split_app_sep by by apply token_no_space.
    by rewrite IH.
Qed.

Lemma whitespace_tokens_single (t : string) :
  is_token t → whitespace_tokens t = [t].
Proof.
  intros [Hne H]. induction t as [|c t IH]; [done|].
  cbn [all_chars] in H. apply andb_true_iff in H as [Hc H].
  apply negb_true_iff in Hc. cbn [whitespace_tokens]. rewrite Hc.
  destruct t as [|d t]; [done|].
  pose proof H as H'. cbn [all_chars] in H'. apply andb_true_iff in H' as [Hd _].
  apply negb_true_iff in Hd. rewrite Hd. by rewrite IH.
Qed.

Lemma whitespace_tokens_app (t rest : string) :
  is_token t →
  whitespace_tokens (t +:+ String " "%char rest) = t :: whitespace_tokens rest.
Proof.
  intros [Hne H]. induction t as [|c t IH]; [done|].
  cbn [all_chars] in H. apply andb_true_iff in H as [Hc H].
  apply negb_true_iff in Hc.
  destruct t as [|d t].
  - change (whitespace_tokens (String c (String " "%char rest))
            = [String c ""] ++ whitespace_tokens rest).
    cbn [whitespace_tokens]. rewrite Hc.
    by change (Text.isspace " "%char) with true.
  - pose proof H as H'. cbn [all_chars] in H'.
    apply andb_true_iff in H' as [Hd _]. apply negb_true_iff in Hd.
    change (String c (String d t) +:+ String " "%char rest)
      with (String c (String d (t +:+ String " "%char rest))).
    change (String d t +:+ String " "%char rest)
      with (String d (t +:+ String " "%char rest)) in IH.
    remember (String d (t +:+ String " "%char rest)) as s' eqn:Es.
    cbn [whitespace_tokens]. rewrite Hc. rewrite Es at 1. rewrite Hd.
    by rewrite IH.
Qed.

(** On such a line the pieces are the whitespace-delimited tokens. *)
Lemma whitespace_tokens_join (tokens : list string) :
  Forall is_token tokens →
  whitespace_tokens (Text.join " " tokens) = tokens.
Proof.
  intros H. induction H as [|t tokens Ht H IH]; [done|].
  destruct tokens as [|u tokens].
  - by apply whitespace_tokens_single.
  - change (Text.join " " (t :: u :: tokens))
      with (t +:+ String " "%char (Text.join " " (u :: tokens))).
    rewrite whitespace_tokens_app by done. by rewrite IH.
Qed.

End TokenFacts.

(** ** Which processes a computation starts *)

Module EmitFacts.

Lemma calls_app (t u : list event) : calls (t ++ u) = calls t ++ calls u.
Proof. apply filter_app. Qed.

(** A computation that leaves the calls of the trace alone. *)
Lemma emits_nil {A} (m : M A) :
  (∀ w, calls (w_trace (m w).2) = calls (w_trace w)) → emits m [].
Proof.
  intros H w. exists []. rewrite H, app_nil_r. by repeat split.
Qed.

Lemma emits_nil_inv {A} (m : M A) (w : world) :
  emits m [] → calls (w_trace (m w).2) = calls (w_trace w).
Proof.
  intros H. destruct (H w) as (started & Hp & -> & _).
  apply prefix_nil_inv in Hp as ->. by rewrite app_nil_r.
Qed.

Lemma emits_bind {A B} (m : M A) (k : A → M B) (e1 e2 : list event) :
  emits m e1 → (∀ a, emits (k a) e2) → emits (m ≫= k) (e1 ++ e2).
Proof.
  intros Hm Hk w. destruct (Hm w) as (s1 & Hp1 & Ht1 & Hr1).
  unfold mbind, M_bind, bind. destruct (m w) as [[a|e] w1]; cbn in *.
  - destruct (Hk a w1) as (s2 & Hp2 & Ht2 & Hr2).
    rewrite (Hr1 a eq_refl) in Ht1. exists (e1 ++ s2). split; [|split].
    + by apply prefix_app.
    + by rewrite Ht2, Ht1, app_assoc.
    + intros b Hb. by rewrite (Hr2 b Hb).
  - exists s1. split; [|split]; [by apply prefix_app_r | done | done].
Qed.

Lemma emits_ret {A} (a : A) : emits (mret a : M A) [].
Proof. by apply emits_nil. Qed.

Lemma emits_raise {A} (e : exn) : emits (raise e : M A) [].
Proof. by apply emits_nil. Qed.

Lemma emits_print (s : string) : emits (print s) [].
Proof. by apply emits_nil. Qed.

Lemma emits_get_fs : emits get_fs [].
Proof. by apply emits_nil. Qed.

Lemma emits_set_fs (fs : gmap path node) : emits (set_fs fs) [].
Proof. by apply emits_nil. Qed.

Lemma calls_quiet (e : event) : is_call e = false → calls [e] = [].
Proof.
  intros H. unfold calls. rewrite filter_cons_False; [done|].
  rewrite H. intros Hf. exact Hf.
Qed.

Lemma calls_call (e : event) : is_call e = true → calls [e] = [e].
Proof.
  intros H. unfold calls. rewrite filter_cons_True; [done|]. by rewrite H.
Qed.

Lemma emits_log_quiet (e : event) : is_call e = false → emits (log e) [].
Proof.
  intros H. apply emits_nil. intros w.
  change (w_trace (log e w).2) with (w_trace w ++ [e]).
  by rewrite calls_app, calls_quiet, app_nil_r.
Qed.

Lemma emits_log_call (e : event) : is_call e = true → emits (log e) [e].
Proof.
  intros H w. exists [e]. split; [done|]. split; [|done].
  change (w_trace (log e w).2) with (w_trace w ++ [e]).
  by rewrite calls_app, calls_call.
Qed.

(** Sequencing with a quiet first or second part. *)
Lemma emits_bind_l {A B} (m : M A) (k : A → M B) (e : list event) :
  emits m e → (∀ a, emits (k a) []) → emits (m ≫= k) e.
Proof.
  intros Hm Hk. rewrite <- (app_nil_r e). by apply emits_bind.
Qed.

Lemma emits_bind_r {A B} (m : M A) (k : A → M B) (e : list event) :
  emits m [] → (∀ a, emits (k a) e) → emits (m ≫= k) e.
Proof. intros Hm Hk. by apply (emits_bind m k [] e). Qed.

Lemma emits_parent_missing {A : Type} (fs : gmap path node) (p : path) :
  emits (Fs.parent_missing fs p : M A) [].
Proof. unfold Fs.parent_missing. destruct (Fs.barred _ _); apply emits_raise. Qed.

Lemma emits_os_mkdir (p : path) : emits (Fs.os_mkdir p) [].
Proof.
  unfold Fs.os_mkdir.
  apply emits_bind_r; [by apply emits_log_quiet|]. intros _.
  apply emits_bind_r; [apply emits_get_fs|]. intros fs.
  destruct (Fs.lstat fs p); [apply emits_raise|].
  destruct (Fs.stat Fs.MAXSYMLINKS fs (parent p)) as [[| |]|];
    first [apply emits_raise | apply emits_set_fs | apply emits_parent_missing].
Qed.

Lemma emits_mkdir_handlers (p : path) (exist_ok : bool) (on_missing : M unit) :
  emits on_missing [] → emits (Fs.mkdir_handlers p exist_ok on_missing) [].
Proof.
  intros H. apply emits_nil. intros w. unfold Fs.mkdir_handlers.
  pose proof (emits_nil_inv _ w (emits_os_mkdir p)) as Ho.
  destruct (Fs.os_mkdir p w) as [[[]|e] w1]; cbn in Ho; [done|].
  destruct e; try (destruct (_ || _); done).
  by rewrite (emits_nil_inv _ w1 H).
Qed.

Lemma emits_mkdir_parents_rev (rp : list string) (exist_ok : bool) :
  emits (Fs.mkdir_parents_rev rp exist_ok) [].
Proof.
  revert exist_ok. induction rp as [|seg rp IH]; intros exist_ok; cbn.
  - apply emits_mkdir_handlers, emits_raise.
  - apply emits_mkdir_handlers.
    apply emits_bind_r; [apply IH|]. intros _.
    apply emits_mkdir_handlers, emits_raise.
Qed.

Lemma emits_mkdir (p : path) : emits (Fs.mkdir p) [].
Proof. apply emits_mkdir_parents_rev. Qed.

Lemma emits_symlink_to (link target : path) :
  emits (Fs.symlink_to link target) [].
Proof.
  unfold Fs.symlink_to.
  apply emits_bind_r; [by apply emits_log_quiet|]. intros _.
  apply emits_bind_r; [apply emits_get_fs|]. intros fs.
  destruct (Fs.lstat fs link); [apply emits_raise|].
  destruct (Fs.stat Fs.MAXSYMLINKS fs (parent link)) as [[| |]|];
    first [apply emits_raise | apply emits_set_fs | apply emits_parent_missing].
Qed.

Section Processes.

Variable exec : cmd → gmap path node → launch.
Variable render : path → path → path → gmap path node → option (gmap path node).

Lemma emits_sp_run (c : cmd) (check : bool) :
  emits (sp_run exec c check) [Run c].
Proof.
  unfold sp_run.
  apply emits_bind_l; [by apply emits_log_call|]. intros _.
  apply emits_bind_r; [apply emits_get_fs|]. intros fs.
  destruct (exec c fs) as [|returncode out fs']; [apply emits_raise|].
  apply emits_bind_r; [apply emits_set_fs|]. intros _.
  destruct (_ && _); [apply emits_raise | apply emits_ret].
Qed.

Lemma emits_sp_Popen (c : cmd) : emits (sp_Popen exec c) [Spawn c].
Proof.
  unfold sp_Popen.
  apply emits_bind_l; [by apply emits_log_call|]. intros _.
  apply emits_bind_r; [apply emits_get_fs|]. intros fs.
  destruct (exec c fs); [apply emits_raise | apply emits_set_fs].
Qed.

Lemma emits_contour (b_fp c_fp fig_fp : path) :
  emits (contour render b_fp c_fp fig_fp) [].
Proof.
  unfold contour.
  apply emits_bind_r; [by apply emits_log_quiet|]. intros _.
  apply emits_bind_r; [apply emits_get_fs|]. intros fs.
  destruct (render b_fp c_fp fig_fp fs); [apply emits_set_fs | apply emits_raise].
Qed.

End Processes.

End EmitFacts.

(** ** The file system *)

Module FsFacts.

Lemma MAXSYMLINKS_eq : Fs.MAXSYMLINKS = S 39.
Proof. reflexivity. Qed.

Lemma is_dir_lstat (fs : gmap path node) (p : path) :
  Fs.is_dir fs p = true → is_Some (Fs.lstat fs p).
Proof.
  unfold Fs.is_dir. intros H. apply bool_decide_eq_true in H.
  rewrite MAXSYMLINKS_eq in H. cbn [Fs.stat] in H.
  destruct (Fs.lstat fs p); [by eexists | done].
Qed.

(** [mkdir(parents=True, exist_ok=True)] on a directory that is there
    changes nothing. *)
Lemma mkdir_existing (p : path) (w : world) :
  Fs.is_dir (w_fs w) p = true →
  Fs.mkdir p w
  = (Return (), World (w_stdout w) (w_stderr w) (w_fs w)
                      (w_trace w ++ [MakeDir p])).
Proof.
  intros Hd. destruct (is_dir_lstat _ _ Hd) as [nd Hl].
  assert (Fs.mkdir_handlers p true (raise (FileNotFoundError "")) w
          = (Return (), World (w_stdout w) (w_stderr w) (w_fs w)
                              (w_trace w ++ [MakeDir p]))) as E.
  { unfold Fs.mkdir_handlers, Fs.os_mkdir, mbind, M_bind, bind, log, get_fs.
    cbn [w_fs w_stdout w_stderr w_trace]. rewrite Hl.
    cbn [raise w_fs]. rewrite Hd. done. }
  unfold Fs.mkdir. destruct (rev p) as [|seg rp] eqn:Er.
  - cbn [Fs.mkdir_parents_rev rev]. apply (f_equal (@rev string)) in Er.
    rewrite rev_involutive in Er. cbn in Er. subst p. exact E.
  - cbn [Fs.mkdir_parents_rev]. rewrite <- Er, rev_involutive.
    revert E. unfold Fs.mkdir_handlers.
    destruct (Fs.os_mkdir p w) as [[[]|e] w1]; [done|].
    by destruct e.
Qed.

(** [symlink_to] raises when the name of the link is taken. *)
Lemma symlink_to_existing (link target : path) (w : world) :
  is_Some (Fs.lstat (w_fs w) link) →
  Fs.symlink_to link target w
  = (Raise (FileExistsError link),
     World (w_stdout w) (w_stderr w) (w_fs w)
           (w_trace w ++ [MakeLink link target])).
Proof.
  intros [nd Hl].
  unfold Fs.symlink_to, mbind, M_bind, bind, log, get_fs.
  cbn [w_fs w_stdout w_stderr w_trace]. by rewrite Hl.
Qed.

(** Below a regular file nothing can be made: the system call fails for
    the path itself and at once, and [mkdir] with [parents] lets that
    through without trying the directories above. *)
Example mkdir_below_file :
  let fs : gmap path node := {[ ["a"] := Regular ]} in
  Fs.os_mkdir ["a"; "b"; "c"] (World "" "" fs [])
  = (Raise (NotADirectoryError ["a"; "b"; "c"]),
     World "" "" fs [MakeDir ["a"; "b"; "c"]]) ∧
  Fs.mkdir ["a"; "b"; "c"] (World "" "" fs [])
  = (Raise (NotADirectoryError ["a"; "b"; "c"]),
     World "" "" fs [MakeDir ["a"; "b"; "c"]]).
Proof. by vm_compute. Qed.

(** Missing directories are made from the top. *)
Example mkdir_missing_parents :
  (Fs.os_mkdir ["a"; "b"] (World "" "" ∅ [])).1 = Raise (FileNotFoundError "") ∧
  Fs.mkdir ["a"; "b"] (World "" "" ∅ [])
  = (Return (),
     World "" "" {[ ["a"] := Directory; ["a"; "b"] := Directory ]}
           [MakeDir ["a"; "b"]; MakeDir ["a"]; MakeDir ["a"; "b"]]).
Proof. by vm_compute. Qed.

End FsFacts.

(** ** What a returning computation leaves on the file system *)

Module EnsureFacts.

Lemma ensures_bind {A B : Type} (P R Q : gmap path node → Prop)
    (m : M A) (k : A → M B) :
  ensures P m R → (∀ a, ensures R (k a) Q) → ensures P (m ≫= k) Q.
Proof.
  intros Hm Hk w HP b. specialize (Hm w HP).
  unfold mbind, M_bind, bind. destruct (m w) as [[a|e] w1]; cbn in *.
  - intros Hb. by apply (Hk a w1 (Hm a eq_refl) b).
  - done.
Qed.

(** A step that leaves the file system alone. *)
Lemma ensures_same {A : Type} (P : gmap path node → Prop) (m : M A) :
  (∀ w, w_fs (m w).2 = w_fs w) → ensures P m P.
Proof. intros H w HP a _. by rewrite H. Qed.

Lemma ensures_print (P : gmap path node → Prop) (s : string) :
  ensures P (print s) P.
Proof. by apply ensures_same. Qed.

Lemma lstat_mono (fs fs' : gmap path node) (p : path) (nd : node) :
  fs ⊆ fs' → Fs.lstat fs p = Some nd → Fs.lstat fs' p = Some nd.
Proof.
  intros Hs. destruct p as [|seg p]; [done|]. cbn [Fs.lstat].
  intros H. by apply (lookup_weaken fs fs').
Qed.

Lemma stat_mono (n : nat) (fs fs' : gmap path node) (p : path) (nd : node) :
  fs ⊆ fs' → Fs.stat n fs p = Some nd → Fs.stat n fs' p = Some nd.
Proof.
  intros Hs. revert p. induction n as [|n IH]; intros p; cbn [Fs.stat].
  - destruct (Fs.lstat fs p) as [x|] eqn:E; [|done].
    rewrite (lstat_mono _ _ _ _ Hs E). by destruct x.
  - destruct (Fs.lstat fs p) as [x|] eqn:E; [|done].
    rewrite (lstat_mono _ _ _ _ Hs E). destruct x; try done. apply IH.
Qed.

Lemma linked_mono (dp link : path) (fs fs' : gmap path node) :
  fs ⊆ fs' → linked dp link fs → linked dp link fs'.
Proof.
  intros Hs [Hd [nd Hl]]. split.
  - unfold Fs.is_dir in *. apply bool_decide_eq_true in Hd.
    apply bool_decide_eq_true. by apply (stat_mono _ _ _ _ _ Hs).
  - exists nd. by apply (lstat_mono _ _ _ _ Hs).
Qed.

(** [os.mkdir] that returns has made the directory. *)
Lemma os_mkdir_returns (p : path) (w : world) :
  (Fs.os_mkdir p w).1 = Return () →
  Fs.is_dir (w_fs (Fs.os_mkdir p w).2) p = true.
Proof.
  unfold Fs.os_mkdir, mbind, M_bind, bind, log, get_fs, set_fs, raise.
  cbn [w_fs w_stdout w_stderr w_trace fst snd].
  destruct (Fs.lstat (w_fs w) p) as [nd|] eqn:El; [done|].
  destruct (Fs.stat Fs.MAXSYMLINKS (w_fs w) (parent p)) as [[| |]|]; try done;
    [|unfold Fs.parent_missing, raise; by destruct (Fs.barred _ _)].
  intros _. cbn [fst snd w_fs].
  apply bool_decide_eq_true. rewrite FsFacts.MAXSYMLINKS_eq. cbn [Fs.stat].
  destruct p as [|seg p]; [done|]. cbn [Fs.lstat].
  by rewrite lookup_insert_eq.
Qed.

Lemma mkdir_handlers_returns (p : path) (exist_ok : bool)
    (on_missing : M unit) :
  (∀ w, (on_missing w).1 = Return () →
        Fs.is_dir (w_fs (on_missing w).2) p = true) →
  ∀ w, (Fs.mkdir_handlers p exist_ok on_missing w).1 = Return () →
       Fs.is_dir (w_fs (Fs.mkdir_handlers p exist_ok on_missing w).2) p = true.
Proof.
  intros Hm w. unfold Fs.mkdir_handlers.
  pose proof (os_mkdir_returns p w) as Ho.
  destruct (Fs.os_mkdir p w) as [[[]|e] w1]; cbn [fst snd] in *.
  { intros H. exact (Ho H). }
  clear Ho.
  assert (∀ e' : exn,
            (if negb exist_ok || negb (Fs.is_dir (w_fs w1) p)
             then (Raise e', w1) else (Return (), w1)).1 = Return () →
            Fs.is_dir
              (w_fs (if negb exist_ok || negb (Fs.is_dir (w_fs w1) p)
                     then (Raise e', w1) else (Return (), w1)).2) p = true)
    as Hother.
  { intros e'. destruct (Fs.is_dir (w_fs w1) p) eqn:E.
    - destruct exist_ok; cbn [negb orb fst snd]; intros H;
        [exact E | discriminate H].
    - rewrite orb_true_r. cbn [fst]. intros H. discriminate H. }
  destruct e; first [apply Hother | apply Hm].
Qed.

Lemma mkdir_parents_rev_returns (rp : list string) (exist_ok : bool)
    (w : world) :
  (Fs.mkdir_parents_rev rp exist_ok w).1 = Return () →
  Fs.is_dir (w_fs (Fs.mkdir_parents_rev rp exist_ok w).2) (rev rp) = true.
Proof.
  destruct rp as [|seg rp]; cbn [Fs.mkdir_parents_rev].
  - by apply mkdir_handlers_returns.
  - apply mkdir_handlers_returns. intros w0.
    unfold mbind, M_bind, bind.
    destruct (Fs.mkdir_parents_rev rp true w0) as [[[]|e] w1]; [|done].
    by apply mkdir_handlers_returns.
Qed.

Lemma ensures_mkdir (P : gmap path node → Prop) (p : path) :
  ensures P (Fs.mkdir p) (fun fs => Fs.is_dir fs p = true).
Proof.
  intros w _ [] H. unfold Fs.mkdir in *.
  rewrite <- (rev_involutive p) at 2. by apply mkdir_parents_rev_returns.
Qed.

(** [symlink_to] that returns has added the link and nothing else. *)
Lemma ensures_symlink_to (dp link target : path) :
  ensures (fun fs => Fs.is_dir fs dp = true) (Fs.symlink_to link target)
          (linked dp link).
Proof.
  intros w Hd []. unfold Fs.symlink_to, mbind, M_bind, bind, log, get_fs,
    set_fs, raise.
  cbn [w_fs w_stdout w_stderr w_trace fst snd].
  destruct (Fs.lstat (w_fs w) link) as [nd|] eqn:El;
    [intros H; discriminate H|].
  destruct (Fs.stat Fs.MAXSYMLINKS (w_fs w) (parent link)) as [[| |]|];
    try (intros H; discriminate H);
    [|unfold Fs.parent_missing, raise; destruct (Fs.barred _ _);
      intros H; discriminate H].
  intros _. cbn [fst snd w_fs].
  destruct link as [|seg link]; [done|]. cbn [Fs.lstat] in El.
  split.
  - unfold Fs.is_dir in *. apply bool_decide_eq_true in Hd.
    apply bool_decide_eq_true.
    apply (stat_mono _ (w_fs w)); [by apply insert_subseteq | done].
  - cbn [Fs.lstat]. rewrite lookup_insert_eq. by eexists.
Qed.

Section Processes.

Variable exec : cmd → gmap path node → launch.
Variable render : path → path → path → gmap path node → option (gmap path node).
Hypothesis exec_additive : additive exec.
Hypothesis render_additive : additive_render render.

Variables dp link : path.

Lemma ensures_sp_run (c : cmd) (check : bool) :
  ensures (linked dp link) (sp_run exec c check) (linked dp link).
Proof.
  intros w HP a. unfold sp_run, mbind, M_bind, bind, log, get_fs, set_fs, raise.
  cbn [w_fs w_stdout w_stderr w_trace fst snd].
  destruct (exec c (w_fs w)) as [|returncode out fs'] eqn:E;
    [intros H; discriminate H|].
  cbn [w_fs]. destruct (check && _); [intros H; discriminate H|].
  intros _. cbn [snd w_fs].
  apply (linked_mono dp link (w_fs w));
    [exact (exec_additive c _ returncode out _ E) | exact HP].
Qed.

Lemma ensures_sp_Popen (c : cmd) :
  ensures (linked dp link) (sp_Popen exec c) (linked dp link).
Proof.
  intros w HP a. unfold sp_Popen, mbind, M_bind, bind, log, get_fs, set_fs, raise.
  cbn [w_fs w_stdout w_stderr w_trace fst snd].
  destruct (exec c (w_fs w)) as [|returncode out fs'] eqn:E;
    [intros H; discriminate H|].
  intros _. cbn [snd w_fs].
  apply (linked_mono dp link (w_fs w));
    [exact (exec_additive c _ returncode out _ E) | exact HP].
Qed.

Lemma ensures_contour (b_fp c_fp fig_fp : path) :
  ensures (linked dp link) (contour render b_fp c_fp fig_fp) (linked dp link).
Proof.
  intros w HP a. unfold contour, mbind, M_bind, bind, log, get_fs, set_fs, raise.
  cbn [w_fs w_stdout w_stderr w_trace fst snd].
  destruct (render b_fp c_fp fig_fp (w_fs w)) as [fs'|] eqn:E;
    [|intros H; discriminate H].
  intros _. cbn [snd w_fs].
  apply (linked_mono dp link (w_fs w));
    [exact (render_additive b_fp c_fp fig_fp _ _ E) | exact HP].
Qed.

End Processes.

End EnsureFacts.

(** ** Properties of [remove_niigz] *)

Example remove_niigz_twice_limit : remove_niigz "a.nii.nii.nii" = "a.nii".
Proof. reflexivity. Qed.

Example remove_niigz_joins_pieces : remove_niigz "a.n.niiii" = "a.nii".
Proof. reflexivity. Qed.

Example remove_niigz_any_separator : remove_niigz "a.niiXgz" = "a".
Proof. reflexivity. Qed.

Example remove_niigz_upper : remove_niigz "a.NII.GZ" = "a.NII.GZ".
Proof. reflexivity. Qed.

(** C3: the four listed mappings hold, but [remove_niigz] does not keep
    to the end of the name, as its docstring says it does, and it is not
    idempotent.  It deletes [.nii] wherever it stands: in ["a.n.niiii"]
    it deletes the inner one, which joins the text around it into
    ["a.nii"], a result that still ends in [.nii] and that a second
    application changes. *)
Theorem remove_niigz_inner_deletion :
  (remove_niigz "a" = "a" ∧ remove_niigz "a.b" = "a.b" ∧
   remove_niigz "a.nii" = "a" ∧ remove_niigz "a.nii.gz" = "a") ∧
  remove_niigz "a.n.niiii" = "a.nii" ∧
  remove_niigz (remove_niigz "a.n.niiii") = "a" ∧
  remove_niigz (remove_niigz "a.n.niiii") ≠ remove_niigz "a.n.niiii".
Proof. by repeat split. Qed.

(** C9: the upper-case suffix of the claim's example is left alone, but
    a mixed-case one is not always: [".nii.GZ"] is a mixed-case spelling
    of [.nii.gz], yet ["a.nii.GZ"] loses its lower-case [.nii] and comes
    back as ["a.GZ"].  The source passes [re.I] where [re.sub] takes the
    count, so the flag it means to set is never set and at most [re.I],
    that is two, occurrences are deleted. *)
Theorem remove_niigz_mixed_case_changed :
  remove_niigz "a.NII.GZ" = "a.NII.GZ" ∧
  case_variant ".nii.gz" ".nii.GZ" ∧
  remove_niigz ("a" +:+ ".nii.GZ") = "a.GZ" ∧
  remove_niigz ("a" +:+ ".nii.GZ") ≠ "a" +:+ ".nii.GZ" ∧
  Re.I = 2 ∧
  remove_niigz "a.nii.nii.nii" = "a.nii".
Proof. by repeat split. Qed.

(** ** Properties of the derived paths *)

(** C5: for the input name [mri.nii.gz] the job directory is [mri] under
    the output directory, the ten job files are the fixed names inside
    it, the figure is [mri_distortion_results.pdf] in the output directory
    itself, and all these paths are distinct. *)
Theorem derive_job_mri (out_dp : path) :
  let j := derive_job out_dp "mri.nii.gz" in
  results_dp j = out_dp ++ ["mri"] ∧
  job_files j =
    [out_dp ++ ["mri"; "ct.nii.gz"];
     out_dp ++ ["mri"; "mr2ct_rigid.nii.gz"];
     out_dp ++ ["mri"; "mr2ct_rigid.aff"];
     out_dp ++ ["mri"; "mr2ct_nonrigid.nii.gz"];
     out_dp ++ ["mri"; "mr2ct_cpp.nii.gz"];
     out_dp ++ ["mri"; "displ_field_ct.nii.gz"];
     out_dp ++ ["mri"; "mag_displ_field_ct.nii.gz"];
     out_dp ++ ["mri"; "mr2ct_deformation.nii.gz"];
     out_dp ++ ["mri"; "ct2mr_deformation.nii.gz"];
     out_dp ++ ["mri"; "mag_displ_field_mri.nii.gz"]] ∧
  fig_fp j = out_dp ++ ["mri_distortion_results.pdf"] ∧
  NoDup (job_paths j).
Proof.
  intros j.
  assert (results_dp j = out_dp ++ ["mri"]) as Hr by reflexivity.
  assert (fig_fp j = out_dp ++ ["mri_distortion_results.pdf"]) as Hf
    by reflexivity.
  assert (job_files j = (fun f => out_dp ++ ["mri"; f]) <$> job_file_names)
    as Hj.
  { unfold j. rewrite PathFacts.job_files_eq. fold j. rewrite Hr.
    apply list_fmap_ext. intros _ f _. by rewrite <- app_assoc. }
  split; [exact Hr|]. split; [exact Hj|]. split; [exact Hf|].
  unfold job_paths. rewrite Hr, Hf, Hj.
  change (NoDup ((app out_dp) <$>
    (["mri"] :: ((fun f => ["mri"; f]) <$> job_file_names)
     ++ [["mri_distortion_results.pdf"]]))).
  apply (NoDup_fmap_2 (app out_dp)).
  apply (bool_decide_unpack _). by vm_compute.
Qed.

(** C2, as stated, fails: the distinct names [a.nii] and [a.nii.gz] are
    given the same job directory, files and figure; and the names [x.nii]
    and [x_distortion_results.pdf.nii], whose stripped names differ, share
    a path: the figure of the first is the job directory of the second. *)
Lemma derive_job_collision :
  ("a.nii" ≠ "a.nii.gz" ∧
   derive_job ["out"] "a.nii" = derive_job ["out"] "a.nii.gz") ∧
  (remove_niigz "x.nii" ≠ remove_niigz "x_distortion_results.pdf.nii" ∧
   fig_fp (derive_job ["out"] "x.nii")
   = results_dp (derive_job ["out"] "x_distortion_results.pdf.nii")).
Proof. split; (split; [discriminate | reflexivity]). Qed.

(** Two paths under the same directory are equal when what follows the
    directory is. *)
Ltac same_tail E :=
  repeat rewrite <- app_assoc in E;
  first [ apply app_inv_head in E
        | apply PathFacts.below_self_l in E
        | apply PathFacts.below_self_r in E
        | idtac ].

(** C2, amended: the derived paths are a function of the output directory
    and of the input name with its suffix stripped, and two inputs get the
    same paths exactly when their stripped names are equal.  The jobs of
    two inputs have no path in common exactly when their stripped names do
    not clash: the names differ, neither is the other followed by
    [_distortion_results.pdf], and, when one of them is empty or a single
    dot, the other is neither of that kind nor the name of a job file. *)
Theorem derive_job_injective_on_stems (out_dp : path) (n1 n2 : string) :
  (derive_job out_dp n1 = derive_job out_dp n2 ↔
   remove_niigz n1 = remove_niigz n2) ∧
  ((∀ p, p ∈ job_paths (derive_job out_dp n1) →
         p ∉ job_paths (derive_job out_dp n2)) ↔
   ¬ stems_clash (remove_niigz n1) (remove_niigz n2)).
Proof.
  split.
  { split.
    - intros H. apply (f_equal fig_fp) in H.
      rewrite !PathFacts.fig_fp_eq in H.
      apply app_inv_head in H. injection H as H.
      by apply TextFacts.app_inv_tail in H.
    - intros H. unfold derive_job. by rewrite H. }
  set (s1 := remove_niigz n1). set (s2 := remove_niigz n2).
  assert ((∃ p, p ∈ job_paths (derive_job out_dp n1) ∧
                p ∈ job_paths (derive_job out_dp n2)) ↔ stems_clash s1 s2)
    as Hshare.
  { split.
    - intros (p & H1 & H2).
      apply PathFacts.elem_of_job_paths in H1, H2. fold s1 in H1. fold s2 in H2.
      unfold stems_clash.
      destruct (decide (proper_segment s1)) as [P1|P1];
        [ rewrite (PathFacts.path_div_proper out_dp s1 P1) in H1
        | rewrite (PathFacts.path_div_dropped out_dp s1 P1) in H1 ];
        (destruct (decide (proper_segment s2)) as [P2|P2];
         [ rewrite (PathFacts.path_div_proper out_dp s2 P2) in H2
         | rewrite (PathFacts.path_div_dropped out_dp s2 P2) in H2 ]);
        destruct H1 as [->|[(f & Hf & ->)| ->]],
                 H2 as [E|[(g & Hg & E)|E]];
        same_tail E;
        first
          [ discriminate E
          | injection E as E;
            first
              [ by (left; exact E)
              | by (right; left; exact E)
              | by (right; right; left; symmetry; exact E)
              | by (left; apply (TextFacts.app_inv_tail _ _ _ E))
              | by (subst; right; right; right; right; left)
              | by (subst; right; right; right; right; right)
              | by (exfalso; eapply PathFacts.job_file_no_figure; eauto)
              | by (exfalso; symmetry in E;
                    eapply PathFacts.job_file_no_figure; eauto) ]
          | by (right; right; right; left) ].
    - unfold stems_clash.
      intros [E|[E|[E|[[P1 P2]|[[P1 Hf]|[P2 Hf]]]]]].
      + exists (out_dp ++ [s1 +:+ "_distortion_results.pdf"]).
        split; apply PathFacts.elem_of_job_paths; right; right;
          [done | fold s2; by rewrite E].
      + exists (out_dp ++ [s1]). split; apply PathFacts.elem_of_job_paths.
        * left. fold s1. symmetry. apply PathFacts.path_div_proper.
          rewrite E. apply PathFacts.figure_name_proper.
        * right; right. fold s2. by rewrite E.
      + exists (out_dp ++ [s2]). split; apply PathFacts.elem_of_job_paths.
        * right; right. fold s1. by rewrite E.
        * left. fold s2. symmetry. apply PathFacts.path_div_proper.
          rewrite E. apply PathFacts.figure_name_proper.
      + exists out_dp. split; apply PathFacts.elem_of_job_paths; left;
          symmetry; by apply PathFacts.path_div_dropped.
      + exists (out_dp ++ [s2]). split; apply PathFacts.elem_of_job_paths.
        * right; left. exists s2. split; [done|]. fold s1.
          by rewrite (PathFacts.path_div_dropped _ s1 P1).
        * left. fold s2. symmetry.
          by apply PathFacts.path_div_proper, PathFacts.job_file_names_proper.
      + exists (out_dp ++ [s1]). split; apply PathFacts.elem_of_job_paths.
        * left. fold s1. symmetry.
          by apply PathFacts.path_div_proper, PathFacts.job_file_names_proper.
        * right; left. exists s1. split; [done|]. fold s2.
          by rewrite (PathFacts.path_div_dropped _ s2 P2). }
  split.
  - intros H Hc. apply Hshare in Hc as (p & H1 & H2). by apply (H p).
  - intros H p H1 H2. apply H, Hshare. by exists p.
Qed.

Lemma derive_job_injective_on_stems_witness :
  ¬ stems_clash (remove_niigz "a.nii") (remove_niigz "b.nii.gz") ∧
  ["out"; "a"] ∈ job_paths (derive_job ["out"] "a.nii") ∧
  ["out"; "a"] ∉ job_paths (derive_job ["out"] "b.nii.gz").
Proof.
  assert (¬ stems_clash (remove_niigz "a.nii") (remove_niigz "b.nii.gz"))
    as Hclear.
  { unfold stems_clash.
    change (remove_niigz "a.nii") with "a".
    change (remove_niigz "b.nii.gz") with "b".
    intros [E|[E|[E|[[P _]|[[P _]|[P _]]]]]];
      try discriminate E; apply P; by split. }
  assert (["out"; "a"] ∈ job_paths (derive_job ["out"] "a.nii")) as Hin
    by (apply (bool_decide_unpack _); by vm_compute).
  split; [exact Hclear|]. split; [exact Hin|].
  exact (proj2 (proj2 (derive_job_injective_on_stems ["out"] "a.nii"
                         "b.nii.gz")) Hclear ["out"; "a"] Hin).
Defined.

(** ** Properties of the version gate *)

(** Unfold one layer of the monad. *)
Ltac step :=
  unfold mbind, M_bind, mret, M_ret, bind, ret, raise, sys_exit, print,
    stderr_write, log, get_fs, set_fs, index;
  cbn -[String.append Text.nl lookup].

Example strip_example :
  Text.strip ("  == mrinfo 3.0.1 ==  " +:+ Text.nl) = "== mrinfo 3.0.1 ==".
Proof. reflexivity. Qed.

Example splitlines_example :
  Text.splitlines ("a b" +:+ Text.nl +:+ Text.nl +:+ "c" +:+ Text.nl)
  = ["a b"; ""; "c"].
Proof. reflexivity. Qed.

Example split_example : Text.split " "%char "a  b c" = ["a"; ""; "b"; "c"].
Proof. reflexivity. Qed.

Example whitespace_tokens_example :
  whitespace_tokens " a  b c " = ["a"; "b"; "c"].
Proof. reflexivity. Qed.

(** The three cases of [test_check_lib_ver]. *)
Example check_lib_ver_fail_exit :
  check_lib_ver "lib_a" "2.0.0" ["1.0.0"; "1.0.1"] false (World "" "" ∅ [])
  = (Raise (SystemExit 1),
     World ("** FAIL using non-validated lib_a version" +:+ Text.nl +:+
            "*** expected 1.0.0 or 1.0.1, got 2.0.0" +:+ Text.nl)
           ("** exiting" +:+ Text.nl) ∅ []).
Proof. reflexivity. Qed.

Example check_lib_ver_fail_continue :
  check_lib_ver "lib_a" "2.0.0" ["1.0.0"; "1.0.1"] true (World "" "" ∅ [])
  = (Return (),
     World ("** FAIL using non-validated lib_a version" +:+ Text.nl +:+
            "*** expected 1.0.0 or 1.0.1, got 2.0.0" +:+ Text.nl)
           "" ∅ []).
Proof. reflexivity. Qed.

Example check_lib_ver_pass :
  check_lib_ver "lib_a" "2.0.0" ["1.0.0"; "2.0.0"] true (World "" "" ∅ [])
  = (Return (),
     World ("** PASS version check on lib_a (2.0.0)" +:+ Text.nl) "" ∅ []).
Proof. reflexivity. Qed.

Example check_lib_ver_is_case_sensitive (w : world) :
  fst (check_lib_ver "lib_a" "1.0a" ["1.0A"] false w) = Raise (SystemExit 1).
Proof. reflexivity. Qed.

(** C1: [check_lib_ver] returns after printing the PASS line
    [** PASS version check on <name> (<version>)] exactly when the
    version is a member of the allowed list.  Otherwise it prints the
    line [** FAIL using non-validated <name> version] and the line
    [*** expected <allowed, joined by " or ">, got <version>], and then
    it ends the process with exit status 1, after [** exiting] on the
    error stream, exactly when [any_ver] is false; with [any_ver] true
    it returns.  Every line ends with a line feed. *)
Theorem check_lib_ver_gate (lib_name lib_ver : string)
    (expected : list string) (any_ver : bool) (w : world) :
  let r := fst (check_lib_ver lib_name lib_ver expected any_ver w) in
  let w' := snd (check_lib_ver lib_name lib_ver expected any_ver w) in
  let line_feed := String "010"%char EmptyString in
  ((r = Return () ∧
    w_stdout w'
    = w_stdout w
      +:+ ("** PASS version check on " +:+ lib_name +:+ " (" +:+ lib_ver +:+ ")")
      +:+ line_feed)
   ↔ lib_ver ∈ expected) ∧
  (lib_ver ∈ expected → w_stderr w' = w_stderr w) ∧
  (lib_ver ∉ expected →
   w_stdout w'
   = (w_stdout w
      +:+ ("** FAIL using non-validated " +:+ lib_name +:+ " version")
      +:+ line_feed)
     +:+ ("*** expected " +:+ Text.join " or " expected
          +:+ ", got " +:+ lib_ver)
     +:+ line_feed ∧
   (r = Raise (SystemExit 1) ↔ any_ver = false) ∧
   (r = Return () ↔ any_ver = true) ∧
   (any_ver = false →
    exit_status r ≠ 0%Z ∧
    w_stderr w' = w_stderr w +:+ "** exiting" +:+ line_feed) ∧
   (any_ver = true → w_stderr w' = w_stderr w)).
Proof.
  unfold check_lib_ver. destruct (decide (lib_ver ∈ expected)) as [Hin|Hin].
  - rewrite bool_decide_eq_true_2 by done. by repeat split.
  - rewrite bool_decide_eq_false_2 by done. split; [|split; [done|]].
    + split; [|done]. intros [_ H]. exfalso. revert H.
      unfold fail_line, expected_line.
      destruct any_ver; step; rewrite !TextFacts.app_assoc;
        intros H; apply TextFacts.app_inv_head in H; discriminate H.
    + intros _. by destruct any_ver; repeat split.
Qed.

Lemma check_lib_ver_gate_witness :
  let run := check_lib_ver "lib_a" "2.0.0" ["1.0.0"; "1.0.1"] false
               (World "" "" ∅ []) in
  let line_feed := String "010"%char EmptyString in
  w_stdout run.2
  = ("" +:+ ("** FAIL using non-validated " +:+ "lib_a" +:+ " version")
     +:+ line_feed)
    +:+ ("*** expected " +:+ Text.join " or " ["1.0.0"; "1.0.1"]
         +:+ ", got " +:+ "2.0.0")
    +:+ line_feed ∧
  (run.1 = Raise (SystemExit 1) ↔ false = false).
Proof.
  intros run line_feed.
  pose proof (proj2 (proj2 (check_lib_ver_gate "lib_a" "2.0.0"
                              ["1.0.0"; "1.0.1"] false (World "" "" ∅ []))))
    as H.
  destruct H as (H1 & H2 & _).
  - apply (bool_decide_unpack _). by vm_compute.
  - split; [exact H1 | exact H2].
Defined.

Section VersionGate.

Variable exec : cmd → gmap path node → launch.
Variables MRTRIX_VERSIONS NIFTYREG_VERSIONS : list string.
Variable cwd : path.

(** C6: when [mrinfo] cannot be started, [get_mrtrix_ver] writes the
    message [ERROR: mrinfo (an mrtrix command) used to check version is
    not in your path, exiting] and a line feed to the error stream and
    exits with status 1; in [main] this ends the version gate before
    anything is compared: nothing but the heading was printed and no
    other process was started. *)
Theorem get_mrtrix_ver_missing (w : world) :
  exec mrinfo_cmd (w_fs w) = NoSuchExecutable →
  let message :=
    "ERROR: mrinfo (an mrtrix command) used to check version is not in your path, exiting"
    +:+ String "010"%char EmptyString in
  let w' := World (w_stdout w) (w_stderr w +:+ message) (w_fs w)
                  (w_trace w ++ [Run [S_ "mrinfo"; S_ "-version"]]) in
  get_mrtrix_ver exec w = (Raise (SystemExit 1), w') ∧
  exit_status (fst (get_mrtrix_ver exec w)) ≠ 0%Z ∧
  ∀ niftyreg_dp any_version,
    version_gate exec MRTRIX_VERSIONS NIFTYREG_VERSIONS cwd niftyreg_dp
      any_version w
    = (Raise (SystemExit 1),
       World (w_stdout w +:+ "* checking versions of external software"
              +:+ String "010"%char EmptyString)
             (w_stderr w +:+ message) (w_fs w)
             (w_trace w ++ [Run [S_ "mrinfo"; S_ "-version"]])).
Proof.
  intros H message w'.
  assert (get_mrtrix_ver exec w = (Raise (SystemExit 1), w')) as E.
  { unfold get_mrtrix_ver, except_FileNotFoundError, sp_run. step.
    by rewrite H. }
  split; [exact E|]. split; [by rewrite E|].
  intros niftyreg_dp any_version.
  unfold version_gate, get_mrtrix_ver, except_FileNotFoundError, sp_run. step.
  by rewrite H.
Qed.

End VersionGate.

Lemma get_mrtrix_ver_missing_witness :
  let message :=
    "ERROR: mrinfo (an mrtrix command) used to check version is not in your path, exiting"
    +:+ String "010"%char EmptyString in
  get_mrtrix_ver (fun _ _ => NoSuchExecutable) (World "" "" ∅ [])
  = (Raise (SystemExit 1),
     World "" ("" +:+ message) ∅ ([] ++ [Run [S_ "mrinfo"; S_ "-version"]])).
Proof.
  intros message.
  apply (get_mrtrix_ver_missing (fun _ _ => NoSuchExecutable) [] [] []
           (World "" "" ∅ [])).
  reflexivity.
Defined.

Section VersionQuery.

Variable exec : cmd → gmap path node → launch.
Variable cwd : path.

(** C7, amended: when the niftyreg directory does not exist,
    [get_niftyreg_ver] raises [FileNotFoundError("niftyreg not found")]
    without starting a process or printing, and no outcome of
    [check_lib_ver] is that exception.  When the directory exists and the
    command the function builds can be started, it returns the trimmed
    standard output of that command, whatever the exit status; when the
    command cannot be started, the [FileNotFoundError] of
    [subprocess.run] comes out instead.  The command is [reg_aladin
    -version] with the directory as it was written before the name: for
    an absolute directory the path of [reg_aladin] in it, for a relative
    one the relative path, and for the directory written [.] the bare
    name [reg_aladin], which is not looked for in that directory. *)
Theorem get_niftyreg_ver_cases (niftyreg_dp : given_path) (w : world) :
  (Fs.is_dir (w_fs w) (locate cwd niftyreg_dp) = false →
   get_niftyreg_ver exec cwd niftyreg_dp w
   = (Raise (FileNotFoundError "niftyreg not found"), w) ∧
   ∀ lib_name lib_ver expected any_ver w0,
     fst (check_lib_ver lib_name lib_ver expected any_ver w0)
     ≠ Raise (FileNotFoundError "niftyreg not found")) ∧
  (Fs.is_dir (w_fs w) (locate cwd niftyreg_dp) = true →
   ∀ returncode out fs',
     exec (reg_aladin_version_cmd niftyreg_dp) (w_fs w)
     = Completed returncode out fs' →
     get_niftyreg_ver exec cwd niftyreg_dp w
     = (Return (Text.strip out),
        World (w_stdout w) (w_stderr w) fs'
              (w_trace w ++ [Run (reg_aladin_version_cmd niftyreg_dp)]))) ∧
  (Fs.is_dir (w_fs w) (locate cwd niftyreg_dp) = true →
   exec (reg_aladin_version_cmd niftyreg_dp) (w_fs w) = NoSuchExecutable →
   get_niftyreg_ver exec cwd niftyreg_dp w
   = (Raise (FileNotFoundError ""),
      World (w_stdout w) (w_stderr w) (w_fs w)
            (w_trace w ++ [Run (reg_aladin_version_cmd niftyreg_dp)]))) ∧
  (∀ p, reg_aladin_version_cmd (Absolute p)
        = [P_ (p ++ ["reg_aladin"]); S_ "-version"]) ∧
  (∀ seg segs,
     reg_aladin_version_cmd (Relative (seg :: segs))
     = [S_ (Text.join "/" (seg :: segs ++ ["reg_aladin"])); S_ "-version"]) ∧
  reg_aladin_version_cmd (Relative []) = [S_ "reg_aladin"; S_ "-version"].
Proof.
  unfold get_niftyreg_ver, sp_run, reg_aladin_version_cmd.
  split; [|split; [|split; [|by repeat split]]].
  - intros H. split.
    + step. rewrite H. by destruct w.
    + intros lib_name lib_ver expected any_ver w0. unfold check_lib_ver.
      by destruct (bool_decide _), any_ver.
  - intros H returncode out fs' He. step. rewrite H. step. by rewrite He.
  - intros H He. step. rewrite H. step. by rewrite He.
Qed.

(** C8, amended: when [mrinfo -version] ends with status 0,
    [get_mrtrix_ver] returns the third piece of the first line of its
    trimmed output, the line being cut at every single space; on a first
    line whose tokens are separated by exactly one space each, that piece
    is the third whitespace-delimited token. *)
Theorem get_mrtrix_ver_third_piece (w : world) (out : string)
    (fs' : gmap path node) (first_line : string) :
  exec mrinfo_cmd (w_fs w) = Completed 0 out fs' →
  Text.splitlines (Text.strip out) !! 0 = Some first_line →
  let w' := World (w_stdout w) (w_stderr w) fs'
                  (w_trace w ++ [Run mrinfo_cmd]) in
  (∀ ver, Text.split " "%char first_line !! 2 = Some ver →
          get_mrtrix_ver exec w = (Return ver, w')) ∧
  (Text.split " "%char first_line !! 2 = None →
   get_mrtrix_ver exec w = (Raise IndexError, w')) ∧
  (∀ tokens ver, first_line = Text.join " " tokens →
                 Forall is_token tokens → tokens !! 2 = Some ver →
                 get_mrtrix_ver exec w = (Return ver, w') ∧
                 whitespace_tokens first_line !! 2 = Some ver).
Proof.
  intros He Hl w'.
  assert (get_mrtrix_ver exec w
          = (match Text.split " "%char first_line !! 2 with
             | Some ver => Return ver
             | None => Raise IndexError
             end, w')) as E.
  { unfold get_mrtrix_ver, except_FileNotFoundError, sp_run. step.
    rewrite He. step. fold (Text.strip out). rewrite Hl. step.
    by destruct (Text.split " "%char first_line !! 2). }
  split; [|split].
  - intros ver Hv. by rewrite E, Hv.
  - intros Hv. by rewrite E, Hv.
  - intros tokens ver -> Ht Hv.
    assert (tokens ≠ []) as Hne by (by destruct tokens).
    rewrite E, TokenFacts.split_join, TokenFacts.whitespace_tokens_join, Hv
      by done.
    done.
Qed.

End VersionQuery.

(** C7, as stated, fails: the directory exists, [reg_aladin] cannot be
    started, and [get_niftyreg_ver] raises instead of returning. *)
Lemma get_niftyreg_ver_dir_without_tool :
  let fs : gmap path node := {[ ["opt"; "niftyreg"] := Directory ]} in
  let w := World "" "" fs [] in
  Fs.is_dir fs (locate ["home"] (Absolute ["opt"; "niftyreg"])) = true ∧
  fst (get_niftyreg_ver (fun _ _ => NoSuchExecutable) ["home"]
         (Absolute ["opt"; "niftyreg"]) w)
  = Raise (FileNotFoundError "").
Proof. split; by vm_compute. Qed.

(** The directory written [.]: it exists and holds [reg_aladin], but the
    command started is the bare name, which the system looks for on the
    search path only; given as an absolute path, the same directory
    serves. *)
Example get_niftyreg_ver_dot :
  let cwd := ["home"] in
  let fs : gmap path node :=
    {[ ["home"] := Directory; ["home"; "reg_aladin"] := Regular ]} in
  let exec0 := machine_with_search [["usr"; "bin"]] cwd in
  Fs.is_dir fs (locate cwd (Relative [])) = true ∧
  get_niftyreg_ver exec0 cwd (Relative []) (World "" "" fs [])
  = (Raise (FileNotFoundError ""),
     World "" "" fs [Run [S_ "reg_aladin"; S_ "-version"]]) ∧
  get_niftyreg_ver exec0 cwd (Absolute ["home"]) (World "" "" fs [])
  = (Return "v1.5.76",
     World "" "" fs [Run [P_ ["home"; "reg_aladin"]; S_ "-version"]]).
Proof. by vm_compute. Qed.

Lemma get_niftyreg_ver_cases_witness :
  let exec0 : cmd → gmap path node → launch :=
    fun _ fs => Completed 0 ("v1.5.76" +:+ Text.nl) fs in
  let fs : gmap path node := {[ ["opt"; "niftyreg"] := Directory ]} in
  let dp := Absolute ["opt"; "niftyreg"] in
  get_niftyreg_ver exec0 ["home"] dp (World "" "" ∅ [])
  = (Raise (FileNotFoundError "niftyreg not found"), World "" "" ∅ []) ∧
  get_niftyreg_ver exec0 ["home"] dp (World "" "" fs [])
  = (Return "v1.5.76",
     World "" "" fs [Run (reg_aladin_version_cmd dp)]).
Proof.
  intros exec0 fs dp. split.
  - apply (proj1 (get_niftyreg_ver_cases exec0 ["home"] dp
                    (World "" "" ∅ []))).
    by vm_compute.
  - apply (proj1 (proj2 (get_niftyreg_ver_cases exec0 ["home"] dp
                           (World "" "" fs [])))
             ltac:(by vm_compute) 0%Z ("v1.5.76" +:+ Text.nl) fs).
    reflexivity.
Defined.

(** C8, as stated, fails: with two spaces after the first token the
    third whitespace-delimited token is the version, but the function
    returns the second token. *)
Lemma get_mrtrix_ver_double_space :
  let out := "==  mrinfo 3.0.1 ==" +:+ Text.nl in
  let w := World "" "" ∅ [] in
  whitespace_tokens (Text.strip out) !! 2 = Some "3.0.1" ∧
  fst (get_mrtrix_ver (fun _ _ => Completed 0 out ∅) w) = Return "mrinfo".
Proof. split; by vm_compute. Qed.

Lemma get_mrtrix_ver_third_piece_witness :
  let out := "== mrinfo 3.0.1-26-g0f28beae ==" +:+ Text.nl in
  get_mrtrix_ver (fun _ _ => Completed 0 out ∅) (World "" "" ∅ [])
  = (Return "3.0.1-26-g0f28beae", World "" "" ∅ [Run mrinfo_cmd]) ∧
  whitespace_tokens "== mrinfo 3.0.1-26-g0f28beae ==" !! 2
  = Some "3.0.1-26-g0f28beae".
Proof.
  intros out.
  pose proof (get_mrtrix_ver_third_piece (fun _ _ => Completed 0 out ∅)
                (World "" "" ∅ []) out ∅ "== mrinfo 3.0.1-26-g0f28beae =="
                eq_refl eq_refl) as (_ & _ & H).
  apply (H ["=="; "mrinfo"; "3.0.1-26-g0f28beae"; "=="] "3.0.1-26-g0f28beae").
  - reflexivity.
  - repeat constructor; (discriminate || reflexivity).
  - reflexivity.
Defined.

(** ** Properties of the pipeline *)

Section Pipeline.

Variable exec : cmd → gmap path node → launch.
Variable render : path → path → path → gmap path node → option (gmap path node).
Variable pkg_dp : path.

Ltac quiet_step :=
  apply EmitFacts.emits_bind_r;
  [ first [ apply EmitFacts.emits_print | apply EmitFacts.emits_mkdir
          | apply EmitFacts.emits_symlink_to ]
  | intros _ ].

Ltac call_step :=
  match goal with
  | |- emits (_ ≫= _) (?e :: ?rest) =>
      apply (EmitFacts.emits_bind _ _ [e] rest);
      [ first [ apply EmitFacts.emits_sp_run | apply EmitFacts.emits_sp_Popen ]
      | intros _ ]
  end.

Ltac consumer c p k c' :=
  exists c, p; split; [reflexivity|]; split;
  [ cbn; set_solver
  | exists k, c'; split; [lia|]; split; [reflexivity | cbn; set_solver] ].

(** C4, as stated, fails: a file that is processed to the end has had
    seven blocking calls, not nine (here with every process succeeding). *)
Lemma process_file_blocking_calls_not_nine :
  let exec0 : cmd → gmap path node → launch := fun _ fs => Completed 0 "" fs in
  let render0 : path → path → path → gmap path node → option (gmap path node) :=
    fun _ _ _ fs => Some fs in
  let run := process_file exec0 render0 ["pkg"] (Absolute ["opt"; "niftyreg"])
               ["out"] ["data"; "mri.nii.gz"] (World "" "" ∅ []) in
  run.1 = Return () ∧
  length (filter is_blocking (w_trace run.2)) = 7 ∧
  length (filter is_blocking (w_trace run.2)) ≠ 9.
Proof. vm_compute. by repeat split. Qed.

(** C4, amended: for each input file the loop body starts, in this order
    and nothing else, the rigid and the non-rigid registration, the viewer,
    and then the displacement, magnitude, composition, inversion and
    resampling commands: seven blocking calls and one viewer that is never
    awaited.  A run that raises has started the first few of them.  Every
    blocking call but the first reads a file that an earlier blocking call
    writes; the first reads only the reference CT, the input MRI and the
    mask. *)
Theorem process_file_calls (niftyreg_dp : given_path) (out_dp mri_fp : path) :
  let j := derive_job out_dp (name mri_fp) in
  let cs := job_calls pkg_dp niftyreg_dp mri_fp j in
  emits (process_file exec render pkg_dp niftyreg_dp out_dp mri_fp) cs ∧
  length (filter is_blocking cs) = 7 ∧
  filter (fun e => ¬ is_blocking e) cs = [Spawn (mrview_cmd pkg_dp j)] ∧
  (∀ i, 1 ≤ i < 7 → consumes_earlier (run_cmds cs) i) ∧
  ¬ consumes_earlier (run_cmds cs) 0 ∧
  inputs (rigid_cmd pkg_dp niftyreg_dp mri_fp j)
  = [ct_fp pkg_dp; mri_fp; ctmask_fp pkg_dp].
Proof.
  intros j cs. split.
  - unfold process_file, cs, job_calls. fold j.
    do 4 quiet_step. quiet_step. call_step. quiet_step. call_step.
    quiet_step. call_step. quiet_step. call_step. quiet_step. call_step.
    do 2 quiet_step. call_step. quiet_step. call_step. quiet_step. call_step.
    quiet_step. apply EmitFacts.emits_contour.
  - clearbody j. split; [reflexivity|]. split; [reflexivity|].
    split; [|split; [|reflexivity]].
    + intros i Hi.
      assert (i = 1 ∨ i = 2 ∨ i = 3 ∨ i = 4 ∨ i = 5 ∨ i = 6)
        as [->|[->|[->|[->|[->| ->]]]]] by lia; clear Hi.
      * consumer (nonrigid_cmd pkg_dp niftyreg_dp j) (rigid_fp j)
                 0 (rigid_cmd pkg_dp niftyreg_dp mri_fp j).
      * consumer (disp_cmd pkg_dp niftyreg_dp j) (cpp_fp j)
                 1 (nonrigid_cmd pkg_dp niftyreg_dp j).
      * consumer (mag_displ_field_cmd j) (disp_field_fp j)
                 2 (disp_cmd pkg_dp niftyreg_dp j).
      * consumer (compose_cmd pkg_dp niftyreg_dp j) (affine_fp j)
                 0 (rigid_cmd pkg_dp niftyreg_dp mri_fp j).
      * consumer (invert_cmd pkg_dp niftyreg_dp mri_fp j)
                 (mr2ct_deformation_fp j)
                 4 (compose_cmd pkg_dp niftyreg_dp j).
      * consumer (resample_cmd niftyreg_dp mri_fp j)
                 (mag_displ_field_ct_fp j)
                 3 (mag_displ_field_cmd j).
    + intros (c & p & _ & _ & k & c' & Hk & _). lia.
Qed.

(** With the job directory and the link entry in place, the loop body
    stops at the symbolic-link step. *)
Lemma process_file_stops_at_link (niftyreg_dp : given_path)
    (out_dp mri_fp : path)
    (w : world) :
  let j := derive_job out_dp (name mri_fp) in
  linked (results_dp j) (ct_lnk_fp j) (w_fs w) →
  process_file exec render pkg_dp niftyreg_dp out_dp mri_fp w
  = (Raise (FileExistsError (ct_lnk_fp j)),
     World (w_stdout w +:+ ("* processing " +:+ name mri_fp) +:+ Text.nl)
           (w_stderr w) (w_fs w)
           (w_trace w ++ [MakeDir (results_dp j);
                          MakeLink (ct_lnk_fp j) (ct_fp pkg_dp)])).
Proof.
  intros j [Hd Hl]. unfold process_file. fold j.
  unfold mbind at 1, M_bind at 1, bind at 1, print at 1.
  unfold mbind at 1, M_bind at 1, bind at 1.
  rewrite FsFacts.mkdir_existing by done.
  unfold mbind at 1, M_bind at 1, bind at 1.
  rewrite FsFacts.symlink_to_existing by done.
  cbn [w_stdout w_stderr w_fs w_trace]. by rewrite <- app_assoc.
Qed.

Ltac keep_step He :=
  eapply EnsureFacts.ensures_bind;
  [ first [ apply EnsureFacts.ensures_print
          | apply (EnsureFacts.ensures_sp_run _ He)
          | apply (EnsureFacts.ensures_sp_Popen _ He) ]
  | intros _ ].

(** When the external programs only add entries, a run of the loop body
    that returns leaves the job directory with its link entry. *)
Lemma process_file_leaves_link (niftyreg_dp : given_path)
    (out_dp mri_fp : path) :
  additive exec → additive_render render →
  let j := derive_job out_dp (name mri_fp) in
  ensures (fun _ => True)
    (process_file exec render pkg_dp niftyreg_dp out_dp mri_fp)
    (linked (results_dp j) (ct_lnk_fp j)).
Proof.
  intros He Hr j. unfold process_file. fold j.
  eapply EnsureFacts.ensures_bind; [apply EnsureFacts.ensures_print|].
  intros _.
  eapply EnsureFacts.ensures_bind; [apply EnsureFacts.ensures_mkdir|].
  intros _.
  eapply EnsureFacts.ensures_bind;
    [apply (EnsureFacts.ensures_symlink_to (results_dp j))|].
  intros _.
  do 19 keep_step He.
  apply (EnsureFacts.ensures_contour _ Hr).
Qed.

(** C10: when the job directory is there and already holds an entry
    named [ct.nii.gz], processing the input raises [FileExistsError] for
    that entry at the symbolic-link step: the heading line was printed,
    the directory and the link were attempted, no process was started and
    the file system is as before.  In particular, when the external
    programs only add entries to the file system, processing an input
    again after a run that returned raises in this way. *)
Theorem process_file_existing_link (niftyreg_dp : given_path)
    (out_dp mri_fp : path)
    (w : world) :
  let j := derive_job out_dp (name mri_fp) in
  let process := process_file exec render pkg_dp niftyreg_dp out_dp mri_fp in
  (Fs.is_dir (w_fs w) (results_dp j) = true →
   is_Some (Fs.lstat (w_fs w) (ct_lnk_fp j)) →
   (process w).1 = Raise (FileExistsError (ct_lnk_fp j)) ∧
   w_trace (process w).2
   = w_trace w ++ [MakeDir (results_dp j);
                   MakeLink (ct_lnk_fp j) (ct_fp pkg_dp)] ∧
   calls (w_trace (process w).2) = calls (w_trace w) ∧
   w_fs (process w).2 = w_fs w ∧
   w_stdout (process w).2
   = w_stdout w +:+ ("* processing " +:+ name mri_fp) +:+ Text.nl) ∧
  (additive exec → additive_render render →
   (process w).1 = Return () →
   (process (process w).2).1 = Raise (FileExistsError (ct_lnk_fp j)) ∧
   calls (w_trace (process (process w).2).2) = calls (w_trace (process w).2)).
Proof.
  intros j process. split.
  - intros Hd Hl. unfold process.
    rewrite (process_file_stops_at_link niftyreg_dp out_dp mri_fp w)
      by by split.
    fold j. cbn [fst snd w_trace w_fs w_stdout]. repeat split.
    rewrite EmitFacts.calls_app. by rewrite app_nil_r.
  - intros He Hr Hret.
    pose proof (process_file_leaves_link niftyreg_dp out_dp mri_fp He Hr
                  w I () Hret) as Hl.
    fold j process in Hl. unfold process at 1 3.
    rewrite (process_file_stops_at_link niftyreg_dp out_dp mri_fp _ Hl).
    fold j. cbn [fst snd w_trace]. split; [done|].
    rewrite EmitFacts.calls_app. by rewrite app_nil_r.
Qed.

End Pipeline.

Lemma process_file_calls_witness :
  let exec0 : cmd → gmap path node → launch := fun _ fs => Completed 0 "" fs in
  let render0 : path → path → path → gmap path node → option (gmap path node) :=
    fun _ _ _ fs => Some fs in
  let mri_fp := ["data"; "mri.nii.gz"] in
  emits (process_file exec0 render0 ["pkg"] (Absolute ["opt"; "niftyreg"])
           ["out"] mri_fp)
        (job_calls ["pkg"] (Absolute ["opt"; "niftyreg"]) mri_fp
           (derive_job ["out"] (name mri_fp))).
Proof.
  intros exec0 render0 mri_fp.
  apply (process_file_calls exec0 render0 ["pkg"]
           (Absolute ["opt"; "niftyreg"]) ["out"] mri_fp).
Defined.

Lemma process_file_existing_link_witness :
  let exec0 : cmd → gmap path node → launch := fun _ fs => Completed 0 "" fs in
  let render0 : path → path → path → gmap path node → option (gmap path node) :=
    fun _ _ _ fs => Some fs in
  let process :=
    process_file exec0 render0 ["pkg"] (Absolute ["opt"; "niftyreg"]) ["out"]
      ["data"; "mri.nii.gz"] in
  let fs : gmap path node :=
    {[ ["out"] := Directory; ["out"; "mri"] := Directory;
       ["out"; "mri"; "ct.nii.gz"] := Symlink ["pkg"; "ct.nii.gz"] ]} in
  (process (World "" "" fs [])).1
  = Raise (FileExistsError ["out"; "mri"; "ct.nii.gz"]) ∧
  (process (process (World "" "" ∅ [])).2).1
  = Raise (FileExistsError ["out"; "mri"; "ct.nii.gz"]).
Proof.
  intros exec0 render0 process fs. split.
  - apply (proj1 (process_file_existing_link exec0 render0 ["pkg"]
                    (Absolute ["opt"; "niftyreg"]) ["out"] ["data"; "mri.nii.gz"]
                    (World "" "" fs []))).
    + by vm_compute.
    + vm_compute. by eexists.
  - apply (proj2 (process_file_existing_link exec0 render0 ["pkg"]
                    (Absolute ["opt"; "niftyreg"]) ["out"] ["data"; "mri.nii.gz"]
                    (World "" "" ∅ []))).
    + intros c fs0 returncode out fs' E. by injection E as _ _ ->.
    + intros b c fig fs0 fs' E. by injection E as ->.
    + by vm_compute.
Defined.

(** A run that returns and the run after it, on an empty output
    directory with programs that always succeed. *)
Example process_file_twice :
  let process :=
    process_file (fun _ fs => Completed 0 "" fs) (fun _ _ _ fs => Some fs)
      ["pkg"] (Absolute ["opt"; "niftyreg"]) ["out"] ["data"; "mri.nii.gz"] in
  let w := World "" "" ∅ [] in
  (process w).1 = Return () ∧
  (process (process w).2).1 = Raise (FileExistsError ["out"; "mri"; "ct.nii.gz"]).
Proof. by vm_compute. Qed.

(** Two inputs with the same stripped name in one run: the second is
    given the job directory of the first and stops at its link. *)
Example for_each_same_stem :
  let loop :=
    for_each
      (process_file (fun _ fs => Completed 0 "" fs) (fun _ _ _ fs => Some fs)
         ["pkg"] (Absolute ["opt"; "niftyreg"]) ["out"])
      [["data"; "a.nii"]; ["data"; "a.nii.gz"]] in
  (loop (World "" "" ∅ [])).1 = Raise (FileExistsError ["out"; "a"; "ct.nii.gz"]) ∧
  length (filter is_blocking (w_trace (loop (World "" "" ∅ [])).2)) = 7.
Proof. by vm_compute. Qed.

(** * Further properties *)

(** ** More on the substitution loop *)

Module DeleteFacts.

Import Re.

Lemma chars_cons (c : ascii) (s : string) : chars (String c s) = c :: chars s.
Proof. reflexivity. Qed.

Lemma chars_length (s : string) : length (chars s) = String.length s.
Proof. induction s as [|c s IH]; [done|]. cbn. by rewrite <- IH. Qed.

Lemma has_char_elem (c : ascii) (s : string) :
  Text.has_char c s = true ↔ c ∈ chars s.
Proof.
  induction s as [|d s IH]; cbn [Text.has_char].
  - split; [done|]. by intros ?%elem_of_nil.
  - rewrite chars_cons, orb_true_iff, IH, elem_of_cons.
    split; (intros [H|H]; [left|by right]).
    + by apply Ascii.eqb_eq in H.
    + by apply Ascii.eqb_eq.
Qed.

(** What is left after a match is the end of the text. *)
Lemma match_here_sublist (pat : regex) (s rest : string) :
  match_here pat s = Some rest → chars rest `sublist_of` chars s.
Proof.
  revert s. induction pat as [|a pat IH]; intros s H; cbn in H.
  - by injection H as ->.
  - destruct s as [|c s]; [done|].
    destruct (atom_matches a c); [|done].
    rewrite chars_cons. by apply sublist_cons, IH.
Qed.

(** The loop only deletes. *)
Lemma sub_loop_sublist (f : nat) (pat : regex) (count n : nat) (s : string) :
  chars (sub_loop f pat "" count n s) `sublist_of` chars s.
Proof.
  revert n s. induction f as [|f IH]; intros n s; cbn [sub_loop]; [done|].
  destruct (_ || _); [|done].
  destruct s as [|c s]; [done|].
  destruct (match_here pat (String c s)) as [rest|] eqn:Hm.
  - cbn [String.append]. etrans; [apply IH|].
    by apply match_here_sublist in Hm.
  - rewrite !chars_cons. by apply sublist_skip.
Qed.

(** With a positive [count], at most [count - n] matches are deleted. *)
Lemma sub_loop_length_ge (f : nat) (pat : regex) (count n : nat) (s : string) :
  0 < count →
  String.length s
  ≤ String.length (sub_loop f pat "" count n s) + (count - n) * length pat.
Proof.
  intros Hc. revert n s.
  induction f as [|f IH]; intros n s; cbn [sub_loop]; [apply Nat.le_add_r|].
  destruct (count =? 0) eqn:E0; [apply Nat.eqb_eq in E0; lia|].
  cbn [orb]. destruct (n <? count) eqn:En; [|apply Nat.le_add_r].
  apply Nat.ltb_lt in En.
  destruct s as [|c s]; [apply Nat.le_add_r|].
  destruct (match_here pat (String c s)) as [rest|] eqn:Hm.
  - apply ReFacts.match_here_length in Hm. cbn [String.append].
    specialize (IH (S n) rest).
    replace (count - n) with (S (count - S n)) by lia.
    rewrite Nat.mul_succ_l. lia.
  - specialize (IH n s). cbn [String.length]. lia.
Qed.

End DeleteFacts.

(** ** More on the string methods *)

Module StrFacts.

Lemma rstrip_all_space (s : string) :
  all_chars Text.isspace s = true → Text.rstrip s = "".
Proof.
  induction s as [|c s IH]; [done|]. cbn [all_chars Text.rstrip].
  intros [Hc Hs]%andb_true_iff. by rewrite IH, Hc.
Qed.

Lemma strip_all_space (s : string) :
  all_chars Text.isspace s = true → Text.strip s = "".
Proof. intros H. unfold Text.strip. by rewrite rstrip_all_space. Qed.

(** [lstrip] leaves no whitespace in front. *)
Lemma lstrip_first (s : string) (c : ascii) :
  first_char (Text.lstrip s) = Some c → Text.isspace c = false.
Proof.
  induction s as [|d s IH]; [done|]. cbn [Text.lstrip].
  destruct (Text.isspace d) eqn:E; [done|]. cbn. by intros [= <-].
Qed.

(** [rstrip] leaves no whitespace at the end. *)
Lemma rstrip_last (s : string) (c : ascii) :
  last_char (Text.rstrip s) = Some c → Text.isspace c = false.
Proof.
  induction s as [|d s IH]; [done|]. cbn [Text.rstrip].
  destruct (Text.rstrip s) as [|e r] eqn:E.
  - destruct (Text.isspace d) eqn:Ed; [done|]. cbn. by intros [= <-].
  - intros H. apply IH. exact H.
Qed.

(** [lstrip] keeps the last character of what it leaves. *)
Lemma lstrip_last (s : string) (c : ascii) :
  last_char (Text.lstrip s) = Some c → last_char s = Some c.
Proof.
  induction s as [|d s IH]; [done|]. cbn [Text.lstrip].
  destruct (Text.isspace d); [|done].
  intros H. specialize (IH H). destruct s; [done|]. exact IH.
Qed.

Lemma strip_trimmed (s : string) : trimmed (Text.strip s).
Proof.
  split; intros c H.
  - by apply (lstrip_first (Text.rstrip s)).
  - apply (rstrip_last s). by apply lstrip_last.
Qed.

Lemma lstrip_id (s : string) :
  (∀ c, first_char s = Some c → Text.isspace c = false) → Text.lstrip s = s.
Proof.
  destruct s as [|c s]; [done|]. intros H. cbn [Text.lstrip].
  by rewrite (H c eq_refl).
Qed.

Lemma rstrip_id (s : string) :
  (∀ c, last_char s = Some c → Text.isspace c = false) → Text.rstrip s = s.
Proof.
  induction s as [|c s IH]; [done|]. intros H. cbn [Text.rstrip].
  destruct s as [|d s].
  - cbn. by rewrite (H c eq_refl).
  - rewrite IH by (intros e He; by apply H). done.
Qed.

(** Trimming a trimmed text changes nothing. *)
Lemma strip_id (s : string) : trimmed s → Text.strip s = s.
Proof.
  intros [Hf Hl]. unfold Text.strip. rewrite rstrip_id by done.
  by apply lstrip_id.
Qed.

(** The pieces of [split] hold no separator. *)
Lemma split_pieces_no_sep (sep : ascii) (s : string) :
  Forall (fun t => Text.has_char sep t = false) (Text.split sep s).
Proof.
  induction s as [|c s IH]; cbn [Text.split]; [by repeat constructor|].
  destruct (Ascii.eqb_spec c sep) as [->|Hne]; [by constructor|].
  destruct (Text.split sep s) as [|t ts]; cbn [Text.cons_first].
  - repeat constructor. cbn. rewrite orb_false_r.
    by apply Ascii.eqb_neq.
  - inversion IH as [|? ? Ht Hts]; subst. constructor; [|done].
    cbn. rewrite Ht, orb_false_r. by apply Ascii.eqb_neq.
Qed.

(** Every piece of [split] is made of characters of the text. *)
Lemma split_all_chars (P : ascii → bool) (sep : ascii) (s : string) :
  all_chars P s = true →
  Forall (fun t => all_chars P t = true) (Text.split sep s).
Proof.
  induction s as [|c s IH]; cbn [Text.split all_chars];
    [by repeat constructor|].
  intros [Hc Hs]%andb_true_iff. specialize (IH Hs).
  destruct (Ascii.eqb c sep); [by constructor|].
  destruct (Text.split sep s) as [|t ts]; cbn [Text.cons_first].
  - repeat constructor. cbn. by rewrite Hc.
  - inversion IH as [|? ? Ht Hts]; subst. constructor; [|done].
    cbn. by rewrite Hc, Ht.
Qed.

(** The lines of [splitlines] hold no line break. *)
Lemma splitlines_no_break (s : string) :
  Forall (fun l => all_chars (fun c => negb (Text.islinebreak c)) l = true)
         (Text.splitlines s).
Proof.
  assert (∀ n s, String.length s ≤ n →
            Forall (fun l => all_chars (fun c => negb (Text.islinebreak c)) l
                             = true) (Text.splitlines s)) as H.
  { clear s. induction n as [|n IH]; intros s Hn.
    - destruct s; [constructor | cbn in Hn; lia].
    - destruct s as [|c s]; [constructor|]. cbn [Text.splitlines].
      cbn in Hn. destruct (Text.islinebreak c) eqn:Ec.
      + destruct s as [|d s]; [by repeat constructor|].
        destruct (_ && _); constructor; try done; apply IH; cbn in *; lia.
      + specialize (IH s ltac:(lia)).
        destruct (Text.splitlines s) as [|l ls]; cbn [Text.cons_first].
        * repeat constructor. cbn. by rewrite Ec.
        * inversion IH as [|? ? Hl Hls]; subst. constructor; [|done].
          cbn. by rewrite Ec, Hl. }
  by apply (H (String.length s)).
Qed.

End StrFacts.

(** ** Reading a run backwards *)

Module RunFacts.

Ltac open_monad :=
  unfold mbind, M_bind, mret, M_ret, bind, ret, raise, sys_exit, print,
    stderr_write, log, get_fs, set_fs, index;
  cbn [fst snd w_stdout w_stderr w_fs w_trace].

Lemma bind_return_inv {A B : Type} (m : M A) (k : A → M B) (w w' : world)
    (b : B) :
  (m ≫= k) w = (Return b, w') →
  ∃ a w1, m w = (Return a, w1) ∧ k a w1 = (Return b, w').
Proof.
  unfold mbind, M_bind, bind. destruct (m w) as [[a|e] w1]; [|done].
  intros H. by exists a, w1.
Qed.

Lemma bind_raise_inv {A B : Type} (m : M A) (k : A → M B) (w w' : world)
    (e : exn) :
  (m ≫= k) w = (Raise e, w') →
  m w = (Raise e, w') ∨ ∃ a w1, m w = (Return a, w1) ∧ k a w1 = (Raise e, w').
Proof.
  unfold mbind, M_bind, bind. destruct (m w) as [[a|e'] w1].
  - intros H. right. by exists a, w1.
  - intros [= -> ->]. by left.
Qed.

Section Queries.

Variable exec : cmd → gmap path node → launch.
Variable cwd : path.

(** The outcome of [get_mrtrix_ver], by what the launch of [mrinfo]
    gave. *)
Lemma get_mrtrix_ver_unfold (w : world) :
  get_mrtrix_ver exec w =
  match exec mrinfo_cmd (w_fs w) with
  | NoSuchExecutable =>
      (Raise (SystemExit 1),
       World (w_stdout w) (w_stderr w +:+ mrinfo_missing) (w_fs w)
             (w_trace w ++ [Run mrinfo_cmd]))
  | Completed returncode out fs' =>
      let w' := World (w_stdout w) (w_stderr w) fs'
                      (w_trace w ++ [Run mrinfo_cmd]) in
      if (returncode =? 0)%Z then
        match Text.splitlines (Text.strip out) !! 0 with
        | None => (Raise IndexError, w')
        | Some first_line =>
            match Text.split " "%char first_line !! 2 with
            | None => (Raise IndexError, w')
            | Some ver => (Return ver, w')
            end
        end
      else (Raise (CalledProcessError returncode mrinfo_cmd), w')
  end.
Proof.
  unfold get_mrtrix_ver, except_FileNotFoundError, sp_run. open_monad.
  destruct (exec mrinfo_cmd (w_fs w)) as [|returncode out fs']; [done|].
  open_monad. cbn [andb]. destruct (returncode =? 0)%Z; cbn [negb]; [|done].
  cbn [snd]. fold (Text.strip out).
  destruct (Text.splitlines (Text.strip out) !! 0) as [first_line|]; [|done].
  cbn [fst snd].
  by destruct (Text.split " "%char first_line !! 2).
Qed.

(** The outcome of [get_niftyreg_ver], by what the launch of
    [reg_aladin] gave. *)
Lemma get_niftyreg_ver_unfold (niftyreg_dp : given_path) (w : world) :
  get_niftyreg_ver exec cwd niftyreg_dp w =
  if Fs.is_dir (w_fs w) (locate cwd niftyreg_dp) then
    match exec (reg_aladin_version_cmd niftyreg_dp) (w_fs w) with
    | NoSuchExecutable =>
        (Raise (FileNotFoundError ""),
         World (w_stdout w) (w_stderr w) (w_fs w)
               (w_trace w ++ [Run (reg_aladin_version_cmd niftyreg_dp)]))
    | Completed returncode out fs' =>
        (Return (Text.strip out),
         World (w_stdout w) (w_stderr w) fs'
               (w_trace w ++ [Run (reg_aladin_version_cmd niftyreg_dp)]))
    end
  else (Raise (FileNotFoundError "niftyreg not found"), w).
Proof.
  unfold get_niftyreg_ver, sp_run, reg_aladin_version_cmd. open_monad.
  destruct (Fs.is_dir (w_fs w) (locate cwd niftyreg_dp)); cbn [negb];
    [|by destruct w].
  open_monad.
  by destruct (exec [G_ (niftyreg_dp /// "reg_aladin"); S_ "-version"] (w_fs w)).
Qed.

End Queries.

(** The outcome of [check_lib_ver]. *)
Lemma check_lib_ver_unfold (lib_name lib_ver : string)
    (expected : list string) (any_ver : bool) (w : world) :
  check_lib_ver lib_name lib_ver expected any_ver w =
  if bool_decide (lib_ver ∈ expected) then
    (Return (),
     World (w_stdout w +:+ pass_line lib_name lib_ver +:+ Text.nl)
           (w_stderr w) (w_fs w) (w_trace w))
  else
    let out := (w_stdout w +:+ fail_line lib_name +:+ Text.nl)
               +:+ expected_line expected lib_ver +:+ Text.nl in
    if any_ver then (Return (), World out (w_stderr w) (w_fs w) (w_trace w))
    else (Raise (SystemExit 1),
          World out (w_stderr w +:+ "** exiting" +:+ Text.nl) (w_fs w)
                (w_trace w)).
Proof.
  unfold check_lib_ver. destruct (bool_decide _); [done|].
  by destruct any_ver.
Qed.

End RunFacts.

(** ** More on runs of the pipeline *)

Module PipeFacts.

(** *** Raising [CalledProcessError] *)

Lemma aborts_bind {A B : Type} (m : M A) (k : A → M B) :
  aborts_at_failed_command m → (∀ a, aborts_at_failed_command (k a)) →
  aborts_at_failed_command (m ≫= k).
Proof.
  intros Hm Hk w returncode c. specialize (Hm w returncode c).
  unfold mbind, M_bind, bind. destruct (m w) as [[a|e] w1]; cbn [fst snd] in *.
  - apply Hk.
  - intros [= ->]. by apply Hm.
Qed.

(** A computation that never raises it. *)
Lemma aborts_never {A : Type} (m : M A) :
  (∀ w returncode c, (m w).1 ≠ Raise (CalledProcessError returncode c)) →
  aborts_at_failed_command m.
Proof. intros H w returncode c E. by destruct (H w returncode c). Qed.

Lemma aborts_print (s : string) : aborts_at_failed_command (print s).
Proof. by apply aborts_never. Qed.

Lemma aborts_ret {A : Type} (a : A) : aborts_at_failed_command (mret a : M A).
Proof. by apply aborts_never. Qed.

Lemma os_mkdir_no_cpe (p : path) (w : world) (returncode : Z) (c : cmd) :
  (Fs.os_mkdir p w).1 ≠ Raise (CalledProcessError returncode c).
Proof.
  unfold Fs.os_mkdir. RunFacts.open_monad.
  destruct (Fs.lstat (w_fs w) p); [done|].
  destruct (Fs.stat Fs.MAXSYMLINKS (w_fs w) (parent p)) as [[| |]|];
    try done.
  unfold Fs.parent_missing, raise. by destruct (Fs.barred _ _).
Qed.

Lemma mkdir_handlers_no_cpe (p : path) (exist_ok : bool) (on_missing : M unit) :
  (∀ w returncode c,
     (on_missing w).1 ≠ Raise (CalledProcessError returncode c)) →
  ∀ w returncode c,
    (Fs.mkdir_handlers p exist_ok on_missing w).1
    ≠ Raise (CalledProcessError returncode c).
Proof.
  intros Hm w returncode c. unfold Fs.mkdir_handlers.
  pose proof (os_mkdir_no_cpe p w returncode c) as Ho.
  destruct (Fs.os_mkdir p w) as [[[]|e] w1]; cbn [fst] in *; [done|].
  destruct e; try (destruct (negb exist_ok || _); cbn [fst];
                   first [exact Ho | discriminate]).
  apply Hm.
Qed.

Lemma mkdir_no_cpe (p : path) (w : world) (returncode : Z) (c : cmd) :
  (Fs.mkdir p w).1 ≠ Raise (CalledProcessError returncode c).
Proof.
  unfold Fs.mkdir. revert w returncode c.
  generalize true as exist_ok.
  induction (rev p) as [|seg rp IH]; intros exist_ok; cbn [Fs.mkdir_parents_rev].
  - apply mkdir_handlers_no_cpe. intros w returncode c. discriminate.
  - apply mkdir_handlers_no_cpe. intros w returncode c.
    unfold mbind, M_bind, bind.
    pose proof (IH true w returncode c) as H1.
    destruct (Fs.mkdir_parents_rev rp true w) as [[[]|e] w1];
      cbn [fst] in *; [|exact H1].
    apply mkdir_handlers_no_cpe. intros w' returncode' c'. discriminate.
Qed.

Lemma symlink_to_no_cpe (link target : path) (w : world) (returncode : Z)
    (c : cmd) :
  (Fs.symlink_to link target w).1 ≠ Raise (CalledProcessError returncode c).
Proof.
  unfold Fs.symlink_to. RunFacts.open_monad.
  destruct (Fs.lstat (w_fs w) link); [done|].
  destruct (Fs.stat Fs.MAXSYMLINKS (w_fs w) (parent link)) as [[| |]|];
    try done.
  unfold Fs.parent_missing, raise. by destruct (Fs.barred _ _).
Qed.

Lemma check_lib_ver_no_cpe (lib_name lib_ver : string)
    (expected : list string) (any_ver : bool) (w : world) (returncode : Z)
    (c : cmd) :
  (check_lib_ver lib_name lib_ver expected any_ver w).1
  ≠ Raise (CalledProcessError returncode c).
Proof.
  rewrite RunFacts.check_lib_ver_unfold.
  destruct (bool_decide _); [done|]. by destruct any_ver.
Qed.

(** *** Never returning *)

Lemma never_returns_bind_l {A B : Type} (m : M A) (k : A → M B) :
  never_returns m → never_returns (m ≫= k).
Proof.
  intros Hm w b. specialize (Hm w). unfold mbind, M_bind, bind.
  destruct (m w) as [[a|e] w1]; cbn [fst] in *; [by destruct (Hm a)|done].
Qed.

Lemma never_returns_bind_r {A B : Type} (m : M A) (k : A → M B) :
  (∀ a, never_returns (k a)) → never_returns (m ≫= k).
Proof.
  intros Hk w b. unfold mbind, M_bind, bind.
  destruct (m w) as [[a|e] w1]; [apply Hk | done].
Qed.

(** A first part that never returns is all there is. *)
Lemma emits_bind_never {A B : Type} (m : M A) (k : A → M B)
    (evs : list event) :
  emits m evs → never_returns m → emits (m ≫= k) evs.
Proof.
  intros He Hn w. destruct (He w) as (started & Hp & Ht & _).
  specialize (Hn w). unfold mbind, M_bind, bind.
  destruct (m w) as [[a|e] w1]; cbn [fst snd] in *; [by destruct (Hn a)|].
  exists started. by repeat split.
Qed.

(** *** Keeping a property of the file system *)

Lemma keeps_bind {A B : Type} (P : gmap path node → Prop)
    (m : M A) (k : A → M B) :
  keeps P m → (∀ a, keeps P (k a)) → keeps P (m ≫= k).
Proof.
  intros Hm Hk w HP. specialize (Hm w HP). unfold mbind, M_bind, bind.
  destruct (m w) as [[a|e] w1]; cbn [fst snd] in *; [by apply Hk | done].
Qed.

Lemma keeps_print (P : gmap path node → Prop) (s : string) : keeps P (print s).
Proof. by intros w HP. Qed.

Lemma monotone_link_in_place (dp link target : path) :
  monotone (link_in_place dp link target).
Proof.
  intros fs fs' Hs [Hd Hl]. split.
  - unfold Fs.is_dir in *. apply bool_decide_eq_true in Hd.
    apply bool_decide_eq_true. by apply (EnsureFacts.stat_mono _ _ _ _ _ Hs).
  - by apply (EnsureFacts.lstat_mono _ _ _ _ Hs).
Qed.

(** Running the same thing on two machines. *)
Lemma bind_ext {A B : Type} (m1 m2 : M A) (k1 k2 : A → M B) :
  (∀ w, m1 w = m2 w) → (∀ a w, k1 a w = k2 a w) →
  ∀ w, (m1 ≫= k1) w = (m2 ≫= k2) w.
Proof.
  intros Hm Hk w. unfold mbind, M_bind, bind. rewrite Hm.
  destruct (m2 w) as [[a|e] w1]; [apply Hk | done].
Qed.

Section Processes.

Variable exec : cmd → gmap path node → launch.
Variable render : path → path → path → gmap path node → option (gmap path node).
Variable cwd : path.

Lemma aborts_sp_run (c : cmd) (check : bool) :
  aborts_at_failed_command (sp_run exec c check).
Proof.
  intros w returncode c'. unfold sp_run. RunFacts.open_monad.
  destruct (exec c (w_fs w)) as [|rc out fs']; [done|].
  RunFacts.open_monad. destruct check; cbn [andb]; [|done].
  destruct (rc =? 0)%Z eqn:E; cbn [negb fst snd]; [done|].
  intros [= -> ->]. split; [by apply Z.eqb_neq|].
  cbn [w_trace]. apply last_snoc.
Qed.

Lemma sp_Popen_no_cpe (c : cmd) (w : world) (returncode : Z) (c' : cmd) :
  (sp_Popen exec c w).1 ≠ Raise (CalledProcessError returncode c').
Proof.
  unfold sp_Popen. RunFacts.open_monad. by destruct (exec c (w_fs w)).
Qed.

Lemma contour_no_cpe (b_fp c_fp fig_fp : path) (w : world) (returncode : Z)
    (c : cmd) :
  (contour render b_fp c_fp fig_fp w).1
  ≠ Raise (CalledProcessError returncode c).
Proof.
  unfold contour. RunFacts.open_monad.
  by destruct (render b_fp c_fp fig_fp (w_fs w)).
Qed.

Lemma aborts_get_mrtrix_ver : aborts_at_failed_command (get_mrtrix_ver exec).
Proof.
  intros w returncode c. rewrite RunFacts.get_mrtrix_ver_unfold.
  destruct (exec mrinfo_cmd (w_fs w)) as [|rc out fs']; [done|].
  cbn zeta. destruct (rc =? 0)%Z eqn:E.
  - destruct (Text.splitlines (Text.strip out) !! 0) as [l|]; [|done].
    by destruct (Text.split " "%char l !! 2).
  - cbn [fst snd w_trace]. intros [= -> ->].
    split; [by apply Z.eqb_neq | apply last_snoc].
Qed.

Lemma get_niftyreg_ver_no_cpe (niftyreg_dp : given_path) (w : world)
    (returncode : Z) (c : cmd) :
  (get_niftyreg_ver exec cwd niftyreg_dp w).1
  ≠ Raise (CalledProcessError returncode c).
Proof.
  rewrite RunFacts.get_niftyreg_ver_unfold.
  destruct (Fs.is_dir (w_fs w) (locate cwd niftyreg_dp)); [|done].
  by destruct (exec (reg_aladin_version_cmd niftyreg_dp) (w_fs w)).
Qed.

Section Additive.

Hypothesis exec_additive : additive exec.
Hypothesis render_additive : additive_render render.
Variable P : gmap path node → Prop.
Hypothesis P_monotone : monotone P.

Lemma keeps_sp_run (c : cmd) (check : bool) : keeps P (sp_run exec c check).
Proof.
  intros w HP. unfold sp_run. RunFacts.open_monad.
  destruct (exec c (w_fs w)) as [|rc out fs'] eqn:E; [done|].
  RunFacts.open_monad.
  assert (P fs') as HP' by exact (P_monotone _ _ (exec_additive _ _ _ _ _ E) HP).
  by destruct (check && _).
Qed.

Lemma keeps_sp_Popen (c : cmd) : keeps P (sp_Popen exec c).
Proof.
  intros w HP. unfold sp_Popen. RunFacts.open_monad.
  destruct (exec c (w_fs w)) as [|rc out fs'] eqn:E; [done|].
  RunFacts.open_monad.
  exact (P_monotone _ _ (exec_additive _ _ _ _ _ E) HP).
Qed.

Lemma keeps_contour (b_fp c_fp fig_fp : path) :
  keeps P (contour render b_fp c_fp fig_fp).
Proof.
  intros w HP. unfold contour. RunFacts.open_monad.
  destruct (render b_fp c_fp fig_fp (w_fs w)) as [fs'|] eqn:E; [|done].
  exact (P_monotone _ _ (render_additive _ _ _ _ _ E) HP).
Qed.

End Additive.

End Processes.

End PipeFacts.

(** ** [remove_niigz], further *)

(** X1: [remove_niigz] only deletes characters, and at most 22 of them
    (two matches of each pattern): its result is the input with some
    characters left out, so it holds no character the input does not
    hold, a path separator in particular. *)
Theorem remove_niigz_deletes_only (s : string) :
  chars (remove_niigz s) `sublist_of` chars s ∧
  String.length (remove_niigz s) ≤ String.length s ∧
  String.length s ≤ String.length (remove_niigz s) + 22 ∧
  (∀ c, Text.has_char c s = false → Text.has_char c (remove_niigz s) = false).
Proof.
  assert (chars (remove_niigz s) `sublist_of` chars s) as Hsub.
  { unfold remove_niigz, Re.sub.
    etrans; apply DeleteFacts.sub_loop_sublist. }
  split; [exact Hsub|]. split; [|split].
  - rewrite <- !DeleteFacts.chars_length. by apply sublist_length.
  - unfold remove_niigz, Re.sub.
    pose proof (DeleteFacts.sub_loop_length_ge (String.length s) re_niigz
                  Re.I 0 s ltac:(unfold Re.I; lia)) as H1.
    set (s1 := Re.sub_loop (String.length s) re_niigz "" Re.I 0 s) in *.
    pose proof (DeleteFacts.sub_loop_length_ge (String.length s1) re_nii
                  Re.I 0 s1 ltac:(unfold Re.I; lia)) as H2.
    cbn in H1, H2. lia.
  - intros c Hc.
    destruct (Text.has_char c (remove_niigz s)) eqn:E; [|done].
    apply DeleteFacts.has_char_elem in E.
    assert (c ∈ chars s) as Hin by by eapply elem_of_sublist.
    apply DeleteFacts.has_char_elem in Hin. congruence.
Qed.

Lemma remove_niigz_deletes_only_witness :
  Text.has_char "/"%char (remove_niigz "mri.nii.gz") = false.
Proof.
  apply (proj2 (proj2 (proj2 (remove_niigz_deletes_only "mri.nii.gz")))).
  reflexivity.
Defined.

Example remove_niigz_stops_after_two :
  remove_niigz "a.nii.gz.nii.gz.nii.gz.nii.nii.nii" = "a.gz.nii.nii".
Proof. reflexivity. Qed.

(** X2: the dot between [nii] and [gz] is a wildcard.  After a stem free
    of [.nii], the suffix [.nii], any one character but the newline, [gz]
    is removed whole; with a newline in that place only [.nii] is. *)
Theorem remove_niigz_wildcard_dot (stem : string) (c : ascii) :
  Text.contains ".nii" stem = false →
  remove_niigz (stem +:+ ".nii" +:+ String c "gz")
  = if Ascii.eqb c Text.LF then stem +:+ String Text.LF "gz" else stem.
Proof.
  intros Hc.
  change (stem +:+ ".nii" +:+ String c "gz")
    with (stem +:+ String "."%char ("nii" +:+ String c "gz")).
  destruct (Ascii.eqb_spec c Text.LF) as [->|Hne].
  - unfold remove_niigz.
    assert (Re.sub re_niigz ""
              (stem +:+ String "."%char ("nii" +:+ String Text.LF "gz")) Re.I
            = stem +:+ String "."%char ("nii" +:+ String Text.LF "gz")) as ->.
    { unfold Re.sub. rewrite TextFacts.app_length.
      rewrite (StripFacts.sub_loop_stem _ re_niigz stem _
                 StripFacts.match_niigz_none Hc) by done.
      by rewrite Nat.sub_diag. }
    unfold Re.sub. rewrite TextFacts.app_length.
    rewrite (StripFacts.sub_loop_stem _ re_nii stem _
               StripFacts.match_nii_none Hc) by done.
    by rewrite Nat.sub_diag.
  - unfold remove_niigz, Re.sub at 2. rewrite TextFacts.app_length.
    rewrite (StripFacts.sub_loop_stem _ re_niigz stem _
               StripFacts.match_niigz_none Hc) by done.
    rewrite Nat.sub_diag.
    assert (Re.sub_loop
              (0 + String.length (String "."%char ("nii" +:+ String c "gz")))
              re_niigz "" Re.I 0
              (String "."%char ("nii" +:+ String c "gz")) = "") as ->.
    { cbn -[Ascii.eqb]. apply Ascii.eqb_neq in Hne. by rewrite Hne. }
    rewrite TextFacts.app_nil_r.
    apply ReFacts.sub_fixed_iff; [done | unfold Re.I; lia |].
    by rewrite StripFacts.search_nii.
Qed.

Lemma remove_niigz_wildcard_dot_witness :
  remove_niigz ("scan" +:+ ".nii" +:+ String "_"%char "gz") = "scan".
Proof.
  apply (remove_niigz_wildcard_dot "scan" "_"%char). reflexivity.
Defined.

(** X15: on a name whose stem holds [.nii] in no letter case the
    function does what its docstring says.  The stem alone is returned as
    it is; with [.nii] or [.nii.gz] appended, the stem is returned; and
    stripping any of these results again changes nothing. *)
Theorem remove_niigz_clean_stem (stem : string) :
  nii_free stem →
  remove_niigz stem = stem ∧
  remove_niigz (stem +:+ ".nii") = stem ∧
  remove_niigz (stem +:+ ".nii.gz") = stem ∧
  ∀ s, s = stem ∨ s = stem +:+ ".nii" ∨ s = stem +:+ ".nii.gz" →
       remove_niigz (remove_niigz s) = remove_niigz s.
Proof.
  intros H. apply CaseFacts.nii_free_contains in H.
  pose proof (proj2 (StripFacts.remove_niigz_fixed_iff stem) H) as H0.
  pose proof (StripFacts.remove_niigz_nii_suffix stem H) as H1.
  pose proof (StripFacts.remove_niigz_gz_suffix stem H) as H2.
  split; [done|]. split; [done|]. split; [done|].
  intros s [->|[->| ->]]; congruence.
Qed.

Lemma remove_niigz_clean_stem_witness :
  remove_niigz ("sub-01_T1w" +:+ ".nii") = "sub-01_T1w" ∧
  remove_niigz ("sub-01_T1w" +:+ ".nii.gz") = "sub-01_T1w".
Proof.
  pose proof (remove_niigz_clean_stem "sub-01_T1w" eq_refl)
    as (_ & H1 & H2 & _).
  by split.
Defined.

(** ** The paths and the commands of a job *)

(** X3: whatever the output directory and the input name, the job
    directory, the ten files in it and the figure are twelve different
    paths. *)
Theorem derive_job_no_clash (out_dp : path) (mri_name : string) :
  NoDup (job_paths (derive_job out_dp mri_name)).
Proof.
  set (stem := remove_niigz mri_name).
  assert (stem ≠ stem +:+ "_distortion_results.pdf") as Hfig.
  { intros H. apply (f_equal String.length) in H.
    rewrite TextFacts.app_length in H. cbn in H. lia. }
  unfold job_paths.
  rewrite PathFacts.job_files_eq, PathFacts.fig_fp_eq. fold stem.
  destruct (decide (proper_segment stem)) as [Hp|Hp].
  - rewrite PathFacts.results_dp_proper by done. fold stem.
    assert (∀ f, (out_dp ++ [stem]) ++ [f] = out_dp ++ [stem; f]) as E
      by (intros f; by rewrite <- app_assoc).
    rewrite (list_fmap_ext _ (fun f => out_dp ++ [stem; f]) job_file_names)
      by (intros _ f _; apply E).
    match goal with
    | |- NoDup ?l =>
        replace l with
          ((app out_dp) <$>
           ([stem] :: ((fun f => [stem; f]) <$> job_file_names)
            ++ [[stem +:+ "_distortion_results.pdf"]])) by reflexivity
    end.
    apply (NoDup_fmap_2 (app out_dp)).
    apply NoDup_cons. split.
    + rewrite elem_of_app, list_elem_of_fmap, list_elem_of_singleton.
      intros [(f & E' & _)|E']; [discriminate E'|]. by injection E'.
    + apply NoDup_app. split; [|split].
      * apply NoDup_fmap_2; [by intros a b [= ->]|].
        apply (bool_decide_unpack _). by vm_compute.
      * intros x (f & -> & _)%list_elem_of_fmap E'%list_elem_of_singleton.
        discriminate E'.
      * apply NoDup_singleton.
  - assert (results_dp (derive_job out_dp mri_name) = out_dp) as ->
      by (by apply PathFacts.path_div_dropped).
    match goal with
    | |- NoDup ?l =>
        replace l with
          ((app out_dp) <$>
           ([] :: ((fun f => [f]) <$> job_file_names)
            ++ [[stem +:+ "_distortion_results.pdf"]]))
    end.
    2: { cbn. by rewrite app_nil_r. }
    apply (NoDup_fmap_2 (app out_dp)).
    assert (stem = "" ∨ stem = ".") as [-> | ->].
    { unfold proper_segment in Hp.
      destruct (decide (stem = "")); [by left|].
      destruct (decide (stem = ".")); [by right|]. exfalso. by apply Hp. }
    + apply (bool_decide_unpack _). by vm_compute.
    + apply (bool_decide_unpack _). by vm_compute.
Qed.

Section Dataflow.

Variable pkg_dp : path.
Variable niftyreg_dp : given_path.
Variables (mri_fp : path) (j : job).

(** The blocking commands of a job, in the order they are run. *)
Let cs : list cmd := run_cmds (job_calls pkg_dp niftyreg_dp mri_fp j).



End Dataflow.


(** ** The version queries and the gate *)

Section GateExtras.

Variable exec : cmd → gmap path node → launch.
Variables MRTRIX_VERSIONS NIFTYREG_VERSIONS : list string.
Variable cwd : path.

(** X5: [get_mrtrix_ver] handles only the missing executable.  When
    [mrinfo -version] ends with a status other than 0, the
    [CalledProcessError] of [subprocess.run] comes out and nothing is
    written to the error stream; when it succeeds but prints nothing but
    whitespace, indexing the first line raises [IndexError]. *)
Theorem get_mrtrix_ver_errors (w : world) (returncode : Z) (out : string)
    (fs' : gmap path node) :
  exec mrinfo_cmd (w_fs w) = Completed returncode out fs' →
  let w' := World (w_stdout w) (w_stderr w) fs'
                  (w_trace w ++ [Run mrinfo_cmd]) in
  (returncode ≠ 0%Z →
   get_mrtrix_ver exec w
   = (Raise (CalledProcessError returncode mrinfo_cmd), w')) ∧
  (returncode = 0%Z → all_chars Text.isspace out = true →
   get_mrtrix_ver exec w = (Raise IndexError, w')).
Proof.
  intros He w'. rewrite RunFacts.get_mrtrix_ver_unfold, He. split.
  - intros Hrc. apply Z.eqb_neq in Hrc. by rewrite Hrc.
  - intros -> Hs. by rewrite (StrFacts.strip_all_space out Hs).
Qed.

(** X6: a version that [get_mrtrix_ver] returns comes from a run of
    [mrinfo -version] that ended with status 0, and it holds neither a
    space nor a line break; the function has printed nothing. *)
Theorem get_mrtrix_ver_clean (w w' : world) (ver : string) :
  get_mrtrix_ver exec w = (Return ver, w') →
  Text.has_char " "%char ver = false ∧
  all_chars (fun c => negb (Text.islinebreak c)) ver = true ∧
  ∃ out fs', exec mrinfo_cmd (w_fs w) = Completed 0 out fs' ∧
             w' = World (w_stdout w) (w_stderr w) fs'
                        (w_trace w ++ [Run mrinfo_cmd]).
Proof.
  rewrite RunFacts.get_mrtrix_ver_unfold.
  destruct (exec mrinfo_cmd (w_fs w)) as [|returncode out fs'] eqn:He;
    [done|].
  cbn zeta. destruct (returncode =? 0)%Z eqn:Hrc; [|done].
  apply Z.eqb_eq in Hrc as ->.
  destruct (Text.splitlines (Text.strip out) !! 0) as [first_line|] eqn:Hl;
    [|done].
  destruct (Text.split " "%char first_line !! 2) as [v|] eqn:Hv; [|done].
  intros [= -> <-]. split; [|split].
  - exact (proj1 (Forall_lookup _ _) (StrFacts.split_pieces_no_sep _ _) _ _ Hv).
  - pose proof (proj1 (Forall_lookup _ _)
                  (StrFacts.splitlines_no_break (Text.strip out)) _ _ Hl)
      as Hline.
    exact (proj1 (Forall_lookup _ _)
             (StrFacts.split_all_chars _ " "%char _ Hline) _ _ Hv).
  - by exists out, fs'.
Qed.

(** X7: in strict mode the gate returns only with two validated
    versions.  When [version_gate] returns with [any_version] false, the
    MRtrix version and the niftyreg version are in their allow-lists, the
    output is the heading and the two PASS lines, nothing went to the
    error stream and the only processes run are the two version
    queries. *)
Theorem version_gate_strict (niftyreg_dp : given_path) (w w' : world) :
  version_gate exec MRTRIX_VERSIONS NIFTYREG_VERSIONS cwd niftyreg_dp false w
  = (Return (), w') →
  ∃ mrtrix_ver niftyreg_ver,
    mrtrix_ver ∈ MRTRIX_VERSIONS ∧ niftyreg_ver ∈ NIFTYREG_VERSIONS ∧
    w_stdout w'
    = ((w_stdout w +:+ "* checking versions of external software" +:+ Text.nl)
       +:+ pass_line "MRtrix" mrtrix_ver +:+ Text.nl)
      +:+ pass_line "niftyreg" niftyreg_ver +:+ Text.nl ∧
    w_stderr w' = w_stderr w ∧
    w_trace w'
    = (w_trace w ++ [Run mrinfo_cmd])
      ++ [Run (reg_aladin_version_cmd niftyreg_dp)].
Proof.
  unfold version_gate. intros H.
  apply RunFacts.bind_return_inv in H as ([] & w0 & H0 & H).
  apply RunFacts.bind_return_inv in H as (v1 & w1 & H1 & H).
  apply RunFacts.bind_return_inv in H as ([] & w2 & H2 & H).
  apply RunFacts.bind_return_inv in H as (v2 & w3 & H3 & H4).
  injection H0 as <-.
  apply get_mrtrix_ver_clean in H1 as (_ & _ & out & fs1 & _ & ->).
  rewrite RunFacts.check_lib_ver_unfold in H2.
  destruct (bool_decide (v1 ∈ MRTRIX_VERSIONS)) eqn:E1; [|done].
  apply bool_decide_eq_true in E1. injection H2 as <-.
  rewrite RunFacts.get_niftyreg_ver_unfold in H3. cbn [w_fs] in H3.
  destruct (Fs.is_dir fs1 (locate cwd niftyreg_dp)); [|done].
  destruct (exec (reg_aladin_version_cmd niftyreg_dp) fs1)
    as [|returncode out2 fs2]; [done|].
  injection H3 as <- <-.
  rewrite RunFacts.check_lib_ver_unfold in H4.
  destruct (bool_decide (Text.strip out2 ∈ NIFTYREG_VERSIONS)) eqn:E2;
    [|done].
  apply bool_decide_eq_true in E2. injection H4 as <-.
  by exists v1, (Text.strip out2).
Qed.

(** X8: with [any_version] true a version that is not validated never
    stops the gate.  When [mrinfo -version] ends with status 0 and the
    first line of its output has a third piece, the niftyreg directory is
    there after that and [reg_aladin -version] can be started, the gate
    returns whatever the two versions are: it has run the two queries,
    printed the heading and its report on each version, and written
    nothing to the error stream.  With [any_version] false it returns, in
    the same situation, exactly when both versions are in their
    allow-lists, and exits with status 1 otherwise. *)
Theorem version_gate_permissive_returns (niftyreg_dp : given_path)
    (w : world) (out1 first_line mrtrix_ver out2 : string)
    (fs1 fs2 : gmap path node) (returncode : Z) :
  exec mrinfo_cmd (w_fs w) = Completed 0 out1 fs1 →
  Text.splitlines (Text.strip out1) !! 0 = Some first_line →
  Text.split " "%char first_line !! 2 = Some mrtrix_ver →
  Fs.is_dir fs1 (locate cwd niftyreg_dp) = true →
  exec (reg_aladin_version_cmd niftyreg_dp) fs1
  = Completed returncode out2 fs2 →
  let niftyreg_ver := Text.strip out2 in
  let gate any_version :=
    version_gate exec MRTRIX_VERSIONS NIFTYREG_VERSIONS cwd niftyreg_dp
      any_version w in
  gate true
  = (Return (),
     World (((w_stdout w +:+ "* checking versions of external software"
              +:+ String "010"%char EmptyString)
             +:+ report "MRtrix" mrtrix_ver MRTRIX_VERSIONS)
            +:+ report "niftyreg" niftyreg_ver NIFTYREG_VERSIONS)
           (w_stderr w) fs2
           (w_trace w ++ [Run mrinfo_cmd;
                          Run (reg_aladin_version_cmd niftyreg_dp)])) ∧
  ((gate false).1 = Return () ↔
   mrtrix_ver ∈ MRTRIX_VERSIONS ∧ niftyreg_ver ∈ NIFTYREG_VERSIONS) ∧
  ((gate false).1 = Raise (SystemExit 1) ↔
   ¬ (mrtrix_ver ∈ MRTRIX_VERSIONS ∧ niftyreg_ver ∈ NIFTYREG_VERSIONS)).
Proof.
  intros He1 Hl Hv Hd He2 niftyreg_ver gate.
  assert (∀ any_version,
            gate any_version
            = (x ← check_lib_ver "MRtrix" mrtrix_ver MRTRIX_VERSIONS
                     any_version;
               niftyreg_ver ← get_niftyreg_ver exec cwd niftyreg_dp;
               check_lib_ver "niftyreg" niftyreg_ver NIFTYREG_VERSIONS
                 any_version)
                (World (w_stdout w
                        +:+ "* checking versions of external software"
                        +:+ Text.nl)
                       (w_stderr w) fs1 (w_trace w ++ [Run mrinfo_cmd])))
    as Hgate.
  { intros any_version. unfold gate, version_gate.
    unfold mbind at 1, M_bind at 1, bind at 1, print at 1.
    unfold mbind at 1, M_bind at 1, bind at 1.
    rewrite RunFacts.get_mrtrix_ver_unfold. cbn [w_fs].
    rewrite He1. cbn zeta. cbn [Z.eqb]. rewrite Hl, Hv. done. }
  assert (∀ w1, w_fs w1 = fs1 →
            get_niftyreg_ver exec cwd niftyreg_dp w1
            = (Return niftyreg_ver,
               World (w_stdout w1) (w_stderr w1) fs2
                     (w_trace w1 ++ [Run (reg_aladin_version_cmd niftyreg_dp)])))
    as Hq.
  { intros w1 Hfs. rewrite RunFacts.get_niftyreg_ver_unfold, Hfs, Hd.
    by rewrite He2. }
  split; [|split].
  - rewrite Hgate. unfold mbind at 1, M_bind at 1, bind at 1.
    rewrite RunFacts.check_lib_ver_unfold.
    cbn [w_stdout w_stderr w_fs w_trace].
    unfold report, pass_line, fail_line, expected_line.
    destruct (bool_decide (mrtrix_ver ∈ MRTRIX_VERSIONS));
      cbn zeta; unfold mbind at 1, M_bind at 1, bind at 1;
      rewrite Hq by done;
      rewrite RunFacts.check_lib_ver_unfold;
      cbn [w_stdout w_stderr w_fs w_trace];
      unfold pass_line, fail_line, expected_line;
      destruct (bool_decide (niftyreg_ver ∈ NIFTYREG_VERSIONS));
      cbn zeta; rewrite <- app_assoc; cbn [app]; f_equal; f_equal;
      rewrite ?TextFacts.app_assoc; reflexivity.
  - rewrite Hgate. unfold mbind at 1, M_bind at 1, bind at 1.
    rewrite RunFacts.check_lib_ver_unfold.
    destruct (decide (mrtrix_ver ∈ MRTRIX_VERSIONS)) as [H1|H1].
    + rewrite bool_decide_eq_true_2 by done.
      unfold mbind at 1, M_bind at 1, bind at 1. rewrite Hq by done.
      rewrite RunFacts.check_lib_ver_unfold.
      destruct (decide (niftyreg_ver ∈ NIFTYREG_VERSIONS)) as [H2|H2].
      * rewrite bool_decide_eq_true_2 by done. by split.
      * rewrite bool_decide_eq_false_2 by done.
        split; [intros H; discriminate H | by intros [_ ?]].
    + rewrite bool_decide_eq_false_2 by done.
      split; [intros H; discriminate H | by intros [? _]].
  - rewrite Hgate. unfold mbind at 1, M_bind at 1, bind at 1.
    rewrite RunFacts.check_lib_ver_unfold.
    destruct (decide (mrtrix_ver ∈ MRTRIX_VERSIONS)) as [H1|H1].
    + rewrite bool_decide_eq_true_2 by done.
      unfold mbind at 1, M_bind at 1, bind at 1. rewrite Hq by done.
      rewrite RunFacts.check_lib_ver_unfold.
      destruct (decide (niftyreg_ver ∈ NIFTYREG_VERSIONS)) as [H2|H2].
      * rewrite bool_decide_eq_true_2 by done.
        split; [intros H; discriminate H | intros H; by destruct H].
      * rewrite bool_decide_eq_false_2 by done.
        split; [by intros _ [_ ?] | done].
    + rewrite bool_decide_eq_false_2 by done.
      split; [by intros _ [? _] | done].
Qed.

(** X9: what [get_niftyreg_ver] returns neither starts nor ends with
    whitespace, so trimming it again changes nothing: the trailing newline
    of the tool's output never reaches the comparison with the
    allow-list. *)
Theorem get_niftyreg_ver_trimmed (niftyreg_dp : given_path) (w w' : world)
    (ver : string) :
  get_niftyreg_ver exec cwd niftyreg_dp w = (Return ver, w') →
  trimmed ver ∧ Text.strip ver = ver.
Proof.
  rewrite RunFacts.get_niftyreg_ver_unfold.
  destruct (Fs.is_dir (w_fs w) (locate cwd niftyreg_dp)); [|done].
  destruct (exec (reg_aladin_version_cmd niftyreg_dp) (w_fs w))
    as [|returncode out fs']; [done|].
  intros [= <- _]. split; [apply StrFacts.strip_trimmed|].
  apply StrFacts.strip_id, StrFacts.strip_trimmed.
Qed.

End GateExtras.

Lemma get_mrtrix_ver_errors_witness :
  get_mrtrix_ver (fun _ fs => Completed 2 "" fs) (World "" "" ∅ [])
  = (Raise (CalledProcessError 2 mrinfo_cmd), World "" "" ∅ [Run mrinfo_cmd]) ∧
  get_mrtrix_ver (fun _ fs => Completed 0 (" " +:+ Text.nl) fs)
    (World "" "" ∅ [])
  = (Raise IndexError, World "" "" ∅ [Run mrinfo_cmd]).
Proof.
  split.
  - apply (proj1 (get_mrtrix_ver_errors (fun _ fs => Completed 2 "" fs)
                    (World "" "" ∅ []) 2 "" ∅ eq_refl)).
    discriminate.
  - apply (proj2 (get_mrtrix_ver_errors
                    (fun _ fs => Completed 0 (" " +:+ Text.nl) fs)
                    (World "" "" ∅ []) 0 (" " +:+ Text.nl) ∅ eq_refl));
      reflexivity.
Defined.

Lemma get_mrtrix_ver_clean_witness :
  Text.has_char " "%char "3.0.4" = false.
Proof.
  apply (get_mrtrix_ver_clean machine (World "" "" ∅ [])
           (World "" "" ∅ [Run mrinfo_cmd]) "3.0.4").
  reflexivity.
Defined.

Lemma version_gate_strict_witness :
  let fs : gmap path node := {[ ["opt"; "niftyreg"] := Directory ]} in
  let w' :=
    World ((("" +:+ "* checking versions of external software" +:+ Text.nl)
            +:+ pass_line "MRtrix" "3.0.4" +:+ Text.nl)
           +:+ pass_line "niftyreg" "v1.5.76" +:+ Text.nl)
          "" fs
          [Run mrinfo_cmd;
           Run (reg_aladin_version_cmd (Absolute ["opt"; "niftyreg"]))] in
  ∃ mrtrix_ver niftyreg_ver,
    mrtrix_ver ∈ ["3.0.3"; "3.0.4"] ∧ niftyreg_ver ∈ ["v1.5.76"] ∧
    w_stdout w'
    = (("" +:+ "* checking versions of external software" +:+ Text.nl)
       +:+ pass_line "MRtrix" mrtrix_ver +:+ Text.nl)
      +:+ pass_line "niftyreg" niftyreg_ver +:+ Text.nl.
Proof.
  intros fs w'.
  assert (version_gate machine ["3.0.3"; "3.0.4"] ["v1.5.76"] ["home"]
            (Absolute ["opt"; "niftyreg"]) false (World "" "" fs [])
          = (Return (), w'))
    as H by (vm_compute; reflexivity).
  destruct (version_gate_strict machine ["3.0.3"; "3.0.4"] ["v1.5.76"]
              ["home"] (Absolute ["opt"; "niftyreg"]) (World "" "" fs [])
              w' H)
    as (v1 & v2 & H1 & H2 & H3 & _).
  by exists v1, v2.
Defined.

Lemma version_gate_permissive_returns_witness :
  let fs : gmap path node := {[ ["opt"; "niftyreg"] := Directory ]} in
  let dp := Absolute ["opt"; "niftyreg"] in
  version_gate machine ["3.0.3"] ["v1.4"] ["home"] dp true (World "" "" fs [])
  = (Return (),
     World ((("" +:+ "* checking versions of external software"
              +:+ String "010"%char EmptyString)
             +:+ report "MRtrix" "3.0.4" ["3.0.3"])
            +:+ report "niftyreg" (Text.strip ("v1.5.76" +:+ Text.nl)) ["v1.4"])
           "" fs
           ([] ++ [Run mrinfo_cmd; Run (reg_aladin_version_cmd dp)])).
Proof.
  intros fs dp.
  apply (proj1 (version_gate_permissive_returns machine ["3.0.3"] ["v1.4"]
                  ["home"] dp (World "" "" fs [])
                  ("== mrinfo 3.0.4 ==" +:+ Text.nl +:+ "64 bit release")
                  "== mrinfo 3.0.4 ==" "3.0.4" ("v1.5.76" +:+ Text.nl)
                  fs fs 0 eq_refl eq_refl eq_refl
                  ltac:(by vm_compute) eq_refl)).
Defined.

Lemma get_niftyreg_ver_trimmed_witness :
  trimmed "v1.5.76" ∧ Text.strip "v1.5.76" = "v1.5.76".
Proof.
  apply (get_niftyreg_ver_trimmed machine ["home"]
           (Absolute ["opt"; "niftyreg"])
           (World "" "" {[ ["opt"; "niftyreg"] := Directory ]} [])
           (World "" "" {[ ["opt"; "niftyreg"] := Directory ]}
                  [Run (reg_aladin_version_cmd
                          (Absolute ["opt"; "niftyreg"]))])).
  by vm_compute.
Defined.

(** ** The loop and its body, further *)

Ltac abort_step :=
  apply PipeFacts.aborts_bind;
  [ first [ apply PipeFacts.aborts_print
          | apply PipeFacts.aborts_sp_run
          | apply PipeFacts.aborts_get_mrtrix_ver
          | apply PipeFacts.aborts_never; intros;
            first [ apply PipeFacts.mkdir_no_cpe
                  | apply PipeFacts.symlink_to_no_cpe
                  | apply PipeFacts.sp_Popen_no_cpe
                  | apply PipeFacts.check_lib_ver_no_cpe
                  | apply PipeFacts.get_niftyreg_ver_no_cpe ] ]
  | intros ? ].

Ltac differs_from_viewer :=
  intros ? ?;
  unfold rigid_cmd, nonrigid_cmd, disp_cmd, mag_displ_field_cmd, compose_cmd,
    invert_cmd, resample_cmd, mrview_cmd;
  discriminate.

Ltac same_run H :=
  lazymatch goal with
  | |- sp_run _ ?c _ ?w = _ =>
      let Hne := fresh "Hne" in
      assert (Hne : ∀ pkg_dp j, c ≠ mrview_cmd pkg_dp j)
        by differs_from_viewer;
      unfold sp_run; RunFacts.open_monad;
      rewrite (H c (w_fs w) (Hne _ _)); reflexivity
  end.

Ltac same_step H :=
  apply PipeFacts.bind_ext;
  [ intros ?; first [ reflexivity | same_run H ] | intros _ ].

Ltac keep_fs_step He HP :=
  apply PipeFacts.keeps_bind;
  [ first [ apply PipeFacts.keeps_print
          | apply (PipeFacts.keeps_sp_run _ He _ HP)
          | apply (PipeFacts.keeps_sp_Popen _ He _ HP) ]
  | intros _ ].

Ltac silent_step :=
  apply EmitFacts.emits_bind_r;
  [ first [ apply EmitFacts.emits_print | apply EmitFacts.emits_mkdir
          | apply EmitFacts.emits_symlink_to ]
  | intros _ ].

Ltac run_step :=
  match goal with
  | |- emits (_ ≫= _) (?e :: ?rest) =>
      apply (EmitFacts.emits_bind _ _ [e] rest);
      [ apply EmitFacts.emits_sp_run | intros _ ]
  end.

Section PipelineExtras.

Variable exec : cmd → gmap path node → launch.
Variable render : path → path → path → gmap path node → option (gmap path node).
Variables MRTRIX_VERSIONS NIFTYREG_VERSIONS : list string.
Variables pkg_dp cwd : path.

Lemma aborts_process_file (niftyreg_dp : given_path) (out_dp mri_fp : path) :
  aborts_at_failed_command
    (process_file exec render pkg_dp niftyreg_dp out_dp mri_fp).
Proof.
  unfold process_file. do 22 abort_step.
  apply PipeFacts.aborts_never. intros. apply PipeFacts.contour_no_cpe.
Qed.

Lemma aborts_for_each {A : Type} (body : A → M unit) (l : list A) :
  (∀ x, aborts_at_failed_command (body x)) →
  aborts_at_failed_command (for_each body l).
Proof.
  intros Hb. induction l as [|x l IH]; cbn [for_each].
  - apply PipeFacts.aborts_ret.
  - apply PipeFacts.aborts_bind; [apply Hb | intros _; exact IH].
Qed.

(** X10: nothing follows a failed command.  Whenever [main] ends with
    the [CalledProcessError] of a command, that command ended with a
    status other than 0 and starting it was the last thing the program
    did: no clean-up, no later step and no later input file. *)
Theorem main_stops_at_failed_command (n : list path) (o : path)
    (niftyreg : given_path) (any_version : bool) (w : world)
    (returncode : Z) (c : cmd) :
  let run := main exec render MRTRIX_VERSIONS NIFTYREG_VERSIONS pkg_dp cwd
               n o niftyreg any_version w in
  run.1 = Raise (CalledProcessError returncode c) →
  returncode ≠ 0%Z ∧ last (w_trace run.2) = Some (Run c) ∧
  exit_status run.1 = 1%Z.
Proof.
  intros run H.
  assert (aborts_at_failed_command
            (main exec render MRTRIX_VERSIONS NIFTYREG_VERSIONS pkg_dp cwd
               n o niftyreg any_version)) as Ha.
  { unfold main. apply PipeFacts.aborts_bind.
    - unfold version_gate. do 4 abort_step.
      apply PipeFacts.aborts_never. intros.
      apply PipeFacts.check_lib_ver_no_cpe.
    - intros _. apply aborts_for_each. intros mri_fp.
      apply aborts_process_file. }
  destruct (Ha w returncode c H) as [H1 H2].
  split; [done|]. split; [done|]. by rewrite H.
Qed.

Lemma emits_process_file (niftyreg_dp : given_path) (out_dp mri_fp : path) :
  emits (process_file exec render pkg_dp niftyreg_dp out_dp mri_fp)
        (job_calls pkg_dp niftyreg_dp mri_fp (derive_job out_dp (name mri_fp))).
Proof.
  unfold process_file, job_calls.
  do 5 silent_step. run_step. silent_step. run_step. silent_step.
  apply (EmitFacts.emits_bind _ _ [_] _); [apply EmitFacts.emits_sp_Popen|].
  intros _. silent_step. run_step. silent_step. run_step.
  do 2 silent_step. run_step. silent_step. run_step. silent_step. run_step.
  silent_step. apply EmitFacts.emits_contour.
Qed.

Lemma emits_for_each {A : Type} (body : A → M unit) (evs : A → list event)
    (l : list A) :
  (∀ x, emits (body x) (evs x)) →
  emits (for_each body l) (concat (evs <$> l)).
Proof.
  intros Hb. induction l as [|x l IH]; cbn [for_each fmap list_fmap concat].
  - apply EmitFacts.emits_ret.
  - apply EmitFacts.emits_bind; [apply Hb | intros _; exact IH].
Qed.

Lemma emits_get_mrtrix_ver : emits (get_mrtrix_ver exec) [Run mrinfo_cmd].
Proof.
  intros w. exists [Run mrinfo_cmd]. split; [done|]. split; [|done].
  assert (∀ (r : result string) out err fs,
            calls (w_trace (r, World out err fs
                                 (w_trace w ++ [Run mrinfo_cmd])).2)
            = calls (w_trace w) ++ [Run mrinfo_cmd]) as Hc
    by (intros; cbn [snd w_trace]; by rewrite EmitFacts.calls_app).
  rewrite RunFacts.get_mrtrix_ver_unfold.
  destruct (exec mrinfo_cmd (w_fs w)) as [|returncode out fs']; [apply Hc|].
  cbn zeta. destruct (returncode =? 0)%Z; [|apply Hc].
  destruct (Text.splitlines (Text.strip out) !! 0) as [first_line|];
    [|apply Hc].
  destruct (Text.split " "%char first_line !! 2); apply Hc.
Qed.

Lemma emits_get_niftyreg_ver (niftyreg_dp : given_path) :
  emits (get_niftyreg_ver exec cwd niftyreg_dp)
        [Run (reg_aladin_version_cmd niftyreg_dp)].
Proof.
  intros w. rewrite RunFacts.get_niftyreg_ver_unfold.
  destruct (Fs.is_dir (w_fs w) (locate cwd niftyreg_dp)).
  - exists [Run (reg_aladin_version_cmd niftyreg_dp)].
    split; [done|]. split; [|done].
    destruct (exec (reg_aladin_version_cmd niftyreg_dp) (w_fs w));
      cbn [snd w_trace]; by rewrite EmitFacts.calls_app.
  - exists []. split; [apply prefix_nil|].
    split; [by rewrite app_nil_r | intros a H; discriminate H].
Qed.

Lemma emits_check_lib_ver (lib_name lib_ver : string)
    (expected : list string) (any_ver : bool) :
  emits (check_lib_ver lib_name lib_ver expected any_ver) [].
Proof.
  apply EmitFacts.emits_nil. intros w.
  rewrite RunFacts.check_lib_ver_unfold.
  destruct (bool_decide _); [done|]. by destruct any_ver.
Qed.

(** X11: [main] starts, in this order and nothing else, the query of the
    MRtrix version, the query of the niftyreg version, and then for each
    input in turn the eight processes of its job.  A run that ends early
    has started the first few of them only: once a step has failed, no
    later command and no later input is started; a run that returns has
    started them all. *)
Theorem main_starts_main_calls (n : list path) (o : path)
    (niftyreg : given_path) (any_version : bool) :
  emits (main exec render MRTRIX_VERSIONS NIFTYREG_VERSIONS pkg_dp cwd
           n o niftyreg any_version)
        (main_calls pkg_dp niftyreg o n) ∧
  length (main_calls pkg_dp niftyreg o n) = 2 + 8 * length n.
Proof.
  split.
  - unfold main, main_calls. apply EmitFacts.emits_bind.
    + unfold version_gate.
      apply EmitFacts.emits_bind_r; [apply EmitFacts.emits_print|].
      intros _.
      apply (EmitFacts.emits_bind _ _ [_] [_]); [apply emits_get_mrtrix_ver|].
      intros mrtrix_ver.
      apply EmitFacts.emits_bind_r; [apply emits_check_lib_ver|]. intros _.
      apply EmitFacts.emits_bind_l; [apply emits_get_niftyreg_ver|].
      intros niftyreg_ver. apply emits_check_lib_ver.
    + intros _. apply emits_for_each. intros mri_fp.
      apply emits_process_file.
  - unfold main_calls. rewrite length_app.
    assert (length (concat
              ((fun mri_fp =>
                  job_calls pkg_dp niftyreg mri_fp (derive_job o (name mri_fp)))
               <$> n)) = 8 * length n) as ->; [|reflexivity].
    induction n as [|mri_fp n IH]; [done|].
    cbn [fmap list_fmap concat]. rewrite length_app, IH.
    unfold job_calls. cbn [length]. lia.
Qed.

(** X12: the exit status and the output of the viewer are never looked
    at.  Two machines that answer every other command alike, and on which
    the viewer can be started on both or on neither and leaves the same
    file system, give the same run of the loop body, whatever the
    viewer's exit status and output. *)
Theorem process_file_ignores_viewer
    (exec' : cmd → gmap path node → launch)
    (niftyreg_dp : given_path) (out_dp mri_fp : path) (w : world) :
  let j := derive_job out_dp (name mri_fp) in
  (∀ c fs, c ≠ mrview_cmd pkg_dp j → exec c fs = exec' c fs) →
  (∀ fs, same_effect (exec (mrview_cmd pkg_dp j) fs)
                     (exec' (mrview_cmd pkg_dp j) fs)) →
  process_file exec render pkg_dp niftyreg_dp out_dp mri_fp w
  = process_file exec' render pkg_dp niftyreg_dp out_dp mri_fp w.
Proof.
  intros j Hsame Hview. revert w. unfold process_file. fold j.
  do 9 same_step Hsame.
  apply PipeFacts.bind_ext.
  { intros w. unfold sp_Popen. RunFacts.open_monad.
    specialize (Hview (w_fs w)).
    destruct (exec (mrview_cmd pkg_dp j) (w_fs w)),
             (exec' (mrview_cmd pkg_dp j) (w_fs w)); try done.
    cbn in Hview. by subst. }
  intros _. do 12 same_step Hsame. reflexivity.
Qed.

(** X13: the viewer is required.  On a machine where [mrview] cannot be
    started, the loop body never returns and starts at most the two
    registrations and the viewer: the displacement field is never
    computed. *)
Theorem process_file_needs_viewer (niftyreg_dp : given_path)
    (out_dp mri_fp : path)
    (w : world) :
  let j := derive_job out_dp (name mri_fp) in
  let run := process_file exec render pkg_dp niftyreg_dp out_dp mri_fp w in
  (∀ fs, exec (mrview_cmd pkg_dp j) fs = NoSuchExecutable) →
  run.1 ≠ Return () ∧
  ∃ started,
    started `prefix_of` [Run (rigid_cmd pkg_dp niftyreg_dp mri_fp j);
                         Run (nonrigid_cmd pkg_dp niftyreg_dp j);
                         Spawn (mrview_cmd pkg_dp j)] ∧
    calls (w_trace run.2) = calls (w_trace w) ++ started.
Proof.
  intros j run Hv.
  assert (never_returns (sp_Popen exec (mrview_cmd pkg_dp j))) as Hn.
  { intros w0 a. unfold sp_Popen. RunFacts.open_monad. by rewrite Hv. }
  split.
  - assert (never_returns
              (process_file exec render pkg_dp niftyreg_dp out_dp mri_fp))
      as Hnr; [|apply Hnr].
    unfold process_file. fold j.
    do 9 (apply PipeFacts.never_returns_bind_r; intros _).
    by apply PipeFacts.never_returns_bind_l.
  - assert (emits (process_file exec render pkg_dp niftyreg_dp out_dp mri_fp)
              [Run (rigid_cmd pkg_dp niftyreg_dp mri_fp j);
               Run (nonrigid_cmd pkg_dp niftyreg_dp j);
               Spawn (mrview_cmd pkg_dp j)]) as He.
    { unfold process_file. fold j.
      do 5 silent_step. run_step. silent_step. run_step. silent_step.
      apply PipeFacts.emits_bind_never; [apply EmitFacts.emits_sp_Popen|done]. }
    destruct (He w) as (started & Hp & Ht & _). by exists started.
Qed.

Lemma symlink_to_in_place (dp link target : path) :
  ensures (fun fs => Fs.is_dir fs dp = true) (Fs.symlink_to link target)
          (link_in_place dp link target).
Proof.
  intros w Hd []. unfold Fs.symlink_to. RunFacts.open_monad.
  destruct (Fs.lstat (w_fs w) link) as [nd|] eqn:El;
    [intros H; discriminate H|].
  destruct (Fs.stat Fs.MAXSYMLINKS (w_fs w) (parent link)) as [[| |]|];
    try (intros H; discriminate H);
    [|unfold Fs.parent_missing, raise; destruct (Fs.barred _ _);
      intros H; discriminate H].
  intros _. cbn [fst snd w_fs].
  destruct link as [|seg link]; [done|]. cbn [Fs.lstat] in El.
  split.
  - unfold Fs.is_dir in *. apply bool_decide_eq_true in Hd.
    apply bool_decide_eq_true.
    apply (EnsureFacts.stat_mono _ (w_fs w)); [by apply insert_subseteq|done].
  - cbn [Fs.lstat]. by rewrite lookup_insert_eq.
Qed.

(** X14: a run that got as far as starting a process leaves its job
    directory behind, whether it then failed or not.  When the external
    programs only add entries to the file system, after such a run the
    job directory is there, [ct.nii.gz] in it is a symbolic link to the
    packaged CT, and processing the same input again raises
    [FileExistsError] at that link: a failed input cannot be retried into
    the same output directory. *)
Theorem process_file_leaves_job_dir (niftyreg_dp : given_path)
    (out_dp mri_fp : path)
    (w : world) :
  let j := derive_job out_dp (name mri_fp) in
  let process := process_file exec render pkg_dp niftyreg_dp out_dp mri_fp in
  additive exec → additive_render render →
  calls (w_trace (process w).2) ≠ calls (w_trace w) →
  link_in_place (results_dp j) (ct_lnk_fp j) (ct_fp pkg_dp)
    (w_fs (process w).2) ∧
  (process (process w).2).1 = Raise (FileExistsError (ct_lnk_fp j)).
Proof.
  intros j process He Hr Hcalls.
  assert (link_in_place (results_dp j) (ct_lnk_fp j) (ct_fp pkg_dp)
            (w_fs (process w).2)) as Hl.
  { assert (∃ run, run = process w) as [run Erun] by by eexists.
    rewrite <- Erun in *.
    unfold process, process_file in Erun. fold j in Erun.
    unfold mbind at 1, M_bind at 1, bind at 1, print at 1 in Erun.
    set (w0 := World _ (w_stderr w) (w_fs w) (w_trace w)) in Erun.
    unfold mbind at 1, M_bind at 1, bind at 1 in Erun.
    pose proof (EmitFacts.emits_nil_inv _ w0
                  (EmitFacts.emits_mkdir (results_dp j))) as Hc1.
    pose proof (EnsureFacts.ensures_mkdir (fun _ => True) (results_dp j)
                  w0 I) as Hd1.
    destruct (Fs.mkdir (results_dp j) w0) as [[[]|e1] w1];
      cbn [fst snd] in *; [|subst run; by destruct Hcalls].
    specialize (Hd1 () eq_refl).
    unfold mbind at 1, M_bind at 1, bind at 1 in Erun.
    pose proof (EmitFacts.emits_nil_inv _ w1
                  (EmitFacts.emits_symlink_to (ct_lnk_fp j) (ct_fp pkg_dp)))
      as Hc2.
    pose proof (symlink_to_in_place (results_dp j) (ct_lnk_fp j)
                  (ct_fp pkg_dp) w1 Hd1) as Hd2.
    destruct (Fs.symlink_to (ct_lnk_fp j) (ct_fp pkg_dp) w1)
      as [[[]|e2] w2]; cbn [fst snd] in *;
      [|subst run; destruct Hcalls; cbn [snd]; by rewrite Hc2, Hc1].
    specialize (Hd2 () eq_refl).
    pose proof (PipeFacts.monotone_link_in_place (results_dp j)
                  (ct_lnk_fp j) (ct_fp pkg_dp)) as HP.
    lazymatch type of Erun with
    | run = ?B w2 =>
        assert (keeps (link_in_place (results_dp j) (ct_lnk_fp j)
                         (ct_fp pkg_dp)) B) as Hk
    end.
    { do 19 keep_fs_step He HP.
      apply (PipeFacts.keeps_contour _ Hr _ HP). }
    subst run. by apply Hk. }
  split; [exact Hl|].
  unfold process at 1.
  rewrite (process_file_stops_at_link exec render pkg_dp niftyreg_dp out_dp
             mri_fp _ (conj (proj1 Hl) (ex_intro _ _ (proj2 Hl)))).
  reflexivity.
Qed.

End PipelineExtras.

Lemma main_stops_at_failed_command_witness :
  let failing : cmd → gmap path node → launch :=
    fun c fs => if bool_decide (c = mrinfo_cmd) then Completed 3 "" fs
                else Completed 0 "" fs in
  (3 ≠ 0)%Z ∧
  last (w_trace (main failing (fun _ _ _ fs => Some fs) ["3.0.4"] ["v1.5.76"]
                   ["pkg"] ["home"] [["data"; "mri.nii.gz"]] ["out"]
                   (Absolute ["opt"; "niftyreg"]) false (World "" "" ∅ [])).2)
  = Some (Run mrinfo_cmd) ∧
  exit_status (main failing (fun _ _ _ fs => Some fs) ["3.0.4"] ["v1.5.76"]
                 ["pkg"] ["home"] [["data"; "mri.nii.gz"]] ["out"]
                 (Absolute ["opt"; "niftyreg"]) false (World "" "" ∅ [])).1
  = 1%Z.
Proof.
  intros failing.
  apply (main_stops_at_failed_command failing (fun _ _ _ fs => Some fs)
           ["3.0.4"] ["v1.5.76"] ["pkg"] ["home"] [["data"; "mri.nii.gz"]]
           ["out"] (Absolute ["opt"; "niftyreg"]) false (World "" "" ∅ [])
           3 mrinfo_cmd).
  reflexivity.
Defined.

Lemma process_file_ignores_viewer_witness :
  let viewer := mrview_cmd ["pkg"] (derive_job ["out"] "mri.nii.gz") in
  process_file machine render_nothing ["pkg"] (Absolute ["opt"; "niftyreg"]) ["out"]
    ["data"; "mri.nii.gz"] (World "" "" ∅ [])
  = process_file (machine_with_crashing viewer) render_nothing ["pkg"]
      (Absolute ["opt"; "niftyreg"]) ["out"] ["data"; "mri.nii.gz"] (World "" "" ∅ []).
Proof.
  intros viewer.
  apply (process_file_ignores_viewer machine render_nothing ["pkg"]
           (machine_with_crashing viewer) (Absolute ["opt"; "niftyreg"]) ["out"]
           ["data"; "mri.nii.gz"] (World "" "" ∅ [])).
  - intros c fs Hc. unfold machine_with_crashing.
    by rewrite bool_decide_eq_false_2.
  - intros fs. unfold machine_with_crashing.
    rewrite bool_decide_eq_true_2 by reflexivity. reflexivity.
Defined.

Lemma process_file_needs_viewer_witness :
  (process_file machine_without_viewer render_nothing ["pkg"]
     (Absolute ["opt"; "niftyreg"]) ["out"] ["data"; "mri.nii.gz"] (World "" "" ∅ [])).1
  ≠ Return ().
Proof.
  apply (process_file_needs_viewer machine_without_viewer render_nothing
           ["pkg"] (Absolute ["opt"; "niftyreg"]) ["out"] ["data"; "mri.nii.gz"]
           (World "" "" ∅ [])).
  intros fs. reflexivity.
Defined.

Lemma process_file_leaves_job_dir_witness :
  let process :=
    process_file machine_with_failing_mrmath render_nothing ["pkg"]
      (Absolute ["opt"; "niftyreg"]) ["out"] ["data"; "mri.nii.gz"] in
  (process (process (World "" "" ∅ [])).2).1
  = Raise (FileExistsError
             (ct_lnk_fp (derive_job ["out"] (name ["data"; "mri.nii.gz"])))).
Proof.
  intros process.
  apply (process_file_leaves_job_dir machine_with_failing_mrmath
           render_nothing ["pkg"] (Absolute ["opt"; "niftyreg"]) ["out"]
           ["data"; "mri.nii.gz"] (World "" "" ∅ [])).
  - intros c fs returncode out fs' E.
    unfold machine_with_failing_mrmath, machine in E.
    repeat case_match; by injection E as _ _ ->.
  - intros b c fig fs fs' E. by injection E as ->.
  - vm_compute. discriminate.
Defined.

(** The run of the witness above: [mrmath] fails, the job directory and
    its link stay. *)
Example failed_run_then_retry :
  let process :=
    process_file machine_with_failing_mrmath render_nothing ["pkg"]
      (Absolute ["opt"; "niftyreg"]) ["out"] ["data"; "mri.nii.gz"] in
  (process (World "" "" ∅ [])).1
  = Raise (CalledProcessError 1
             (mag_displ_field_cmd (derive_job ["out"] "mri.nii.gz"))) ∧
  (process (process (World "" "" ∅ [])).2).1
  = Raise (FileExistsError ["out"; "mri"; "ct.nii.gz"]).
Proof. by vm_compute. Qed.
